(** * ShaderCopilot: workflow graph, retry policy, validation gate and
      message handler of the Python agent, embedded from the sources

    - [graphs/shader_gen/state.py]   : [CompileResult], [ShaderGenState]
    - [graphs/shader_gen/nodes.py]   : the node functions and conditional edges
    - [graphs/shader_gen/graph.py]   : the graph wiring and [ShaderGenRunner.run]
    - [server/messages.py]           : [MessageType], the payload classes
    - [server/message_handler.py]    : [MessageHandler]
    - [server/websocket_server.py]   : [ConnectionManager], [_connection_handler]
    - [utils/image_utils.py]         : data URLs of reference images

    Python [str] values are modelled as [string] (their UTF-8 bytes), Python
    [int] as [Z], dictionaries used as maps as [gmap]. An attribute that a
    class under the sources does not declare is read as Python reads it: the
    read raises [AttributeError]. *)

From Stdlib Require Import ZArith Ascii String List Lia Bool.
From stdpp Require Import base option gmap.
Import ListNotations.

Local Open Scope string_scope.
Local Open Scope Z_scope.

(** ** Python string primitives used by the sources *)

Module Py.

(** [needle in hay] on strings: substring test. *)
Fixpoint str_in (needle hay : string) : bool :=
  if String.prefix needle hay then true
  else match hay with
       | EmptyString => false
       | String _ rest => str_in needle rest
       end.

(** [sep.join(parts)]. *)
Fixpoint join (sep : string) (parts : list string) : string :=
  match parts with
  | [] => ""
  | [p] => p
  | p :: rest => p ++ sep ++ join sep rest
  end.

(** [s.split(sep)] for a one-character separator (newline in the source). *)
Fixpoint split_on (sep : ascii) (s : string) : list string :=
  match s with
  | EmptyString => [""]
  | String c rest =>
      if Ascii.eqb c sep then "" :: split_on sep rest
      else match split_on sep rest with
           | [] => [String c ""]
           | hd :: tl => String c hd :: tl
           end
  end.

(** White space as [str.strip()] removes it. A text is held as its UTF-8
    bytes, so a white-space character is one byte (the characters 9 to 13 and
    28 to 32) or the two or three bytes that encode U+0085, U+00A0, U+1680,
    U+2000 to U+200A, U+2028, U+2029, U+202F, U+205F or U+3000. *)
Definition is_space (c : ascii) : bool :=
  let n := nat_of_ascii c in
  ((9 <=? n) && (n <=? 13) || (28 <=? n) && (n <=? 32))%nat.

Definition is_byte (n : nat) (c : ascii) : bool := (nat_of_ascii c =? n)%nat.

Definition is_space2 (a b : ascii) : bool :=
  is_byte 194 a && (is_byte 133 b || is_byte 160 b).

Definition is_space3 (a b c : ascii) : bool :=
  let n := nat_of_ascii c in
  is_byte 225 a && is_byte 154 b && is_byte 128 c
  || is_byte 226 a && is_byte 128 b
     && ((128 <=? n)%nat && (n <=? 138)%nat
         || is_byte 168 c || is_byte 169 c || is_byte 175 c)
  || is_byte 226 a && is_byte 129 b && is_byte 159 c
  || is_byte 227 a && is_byte 128 b && is_byte 128 c.

Fixpoint lstrip (s : string) : string :=
  match s with
  | EmptyString => ""
  | String a rest =>
      if is_space a then lstrip rest
      else match rest with
           | EmptyString => s
           | String b rest2 =>
               if is_space2 a b then lstrip rest2
               else match rest2 with
                    | EmptyString => s
                    | String c rest3 =>
                        if is_space3 a b c then lstrip rest3 else s
                    end
           end
  end.

(** A text of white space only. *)
Definition all_space (s : string) : bool :=
  match lstrip s with EmptyString => true | _ => false end.

(** [s.rstrip()]: the shortest start of [s] that only white space
    follows. *)
Fixpoint rstrip (s : string) : string :=
  match s with
  | EmptyString => ""
  | String c rest => if all_space s then "" else String c (rstrip rest)
  end.

Definition strip (s : string) : string := rstrip (lstrip s).

(** [s[s.find(needle):]] when [needle] occurs in [s]; [None] stands for
    a [find] result of [-1]. *)
Fixpoint from_first (needle s : string) : option string :=
  if String.prefix needle s then Some s
  else match s with
       | EmptyString => None
       | String _ rest => from_first needle rest
       end.

End Py.

(** ** Exceptions *)

(** The exceptions the code can meet. *)
Inductive Exn :=
| MessageParseError (message raw_data : string)
| TypeError (message : string)
| AttributeError (message : string)
| OtherException (message : string).

Definition exn_str (e : Exn) : string :=
  match e with
  | MessageParseError m _ => m
  | TypeError m => m
  | AttributeError m => m
  | OtherException m => m
  end.

Inductive Outcome (A : Type) :=
| Ret (a : A)
| Raise (e : Exn).
Arguments Ret {A} a.
Arguments Raise {A} e.

(** ** graphs/shader_gen/state.py *)

(** The classes of [state.py] and the methods of the task record. Of
    [ShaderGenState] the fields the methods read or write are kept here (the
    workflow's view of the record follows the module); of [CompileResult] all
    but [compile_time_ms], a float nothing reads. *)
Module Task.

Inductive CompileStatus := PENDING | COMPILING | SUCCESS | FAILED.

Definition CompileStatus_eqb (a b : CompileStatus) : bool :=
  match a, b with
  | PENDING, PENDING | COMPILING, COMPILING
  | SUCCESS, SUCCESS | FAILED, FAILED => true
  | _, _ => false
  end.

Record CompileError := mkCompileError {
  line : Z;
  column : Z;
  message : string;
  severity : string
}.

Record CompileResult := mkCompileResult {
  status : CompileStatus;
  shader_id : option string;
  errors : list CompileError;
  warnings : list CompileError
}.

(** [CompileResult()]. *)
Definition CompileResult_default : CompileResult :=
  mkCompileResult PENDING None [] [].

Record ShaderGenState := mkState {
  generated_code : string;
  compile_result : CompileResult;
  material_id : option string;
  screenshot : option string;
  retry_count : Z;
  max_retries : Z;
  error_history : list string
}.

(** [ShaderGenState.can_retry]. *)
Definition can_retry (self : ShaderGenState) : bool :=
  retry_count self <? max_retries self.

(** [ShaderGenState.has_compile_errors]. *)
Definition has_compile_errors (self : ShaderGenState) : bool :=
  CompileStatus_eqb (status (compile_result self)) FAILED.

(** The entry [increment_retry] appends: the counter in decimal, and the
    messages of the errors joined. *)
Definition attempt_entry (count : Z) (errs : list CompileError) : string :=
  let error_msg := Py.join "; " (map message errs) in
  "Attempt " ++ pretty.pretty count ++ ": " ++ error_msg.

(** [ShaderGenState.increment_retry]. *)
Definition increment_retry (self : ShaderGenState) : ShaderGenState :=
  let count := retry_count self + 1 in
  mkState (generated_code self) (compile_result self) (material_id self)
    (screenshot self) count (max_retries self)
    (match errors (compile_result self) with
     | [] => error_history self
     | _ :: _ =>
         (error_history self
            ++ [attempt_entry count (errors (compile_result self))])%list
     end).

(** [ShaderGenState.reset_for_retry]. *)
Definition reset_for_retry (self : ShaderGenState) : ShaderGenState :=
  mkState "" CompileResult_default None None
    (retry_count self) (max_retries self) (error_history self).

(** What a caller does to a task between two generation attempts: one of the
    two methods, or the assignment of a compile result. *)
Inductive Call :=
| IncrementRetry
| ResetForRetry
| SetCompileResult (r : CompileResult).

Definition call (self : ShaderGenState) (c : Call) : ShaderGenState :=
  match c with
  | IncrementRetry => increment_retry self
  | ResetForRetry => reset_for_retry self
  | SetCompileResult r =>
      mkState (generated_code self) r (material_id self) (screenshot self)
        (retry_count self) (max_retries self) (error_history self)
  end.

Definition calls (self : ShaderGenState) (cs : list Call) : ShaderGenState :=
  fold_left call cs self.

(** The number of [increment_retry] calls in a sequence. *)
Definition increments (cs : list Call) : nat :=
  length (List.filter
            (fun c => match c with IncrementRetry => true | _ => false end)
            cs).

End Task.

(** [ShaderGenState] as the workflow sees it: the fields the graph and the
    runner read or write. The identity fields, the material and texture
    fields and the output paths are never touched by the graph and are left
    out. [compile_result] holds a [CompileResult] of [state.py], the type
    the field declares. *)
Record ShaderGenState := mkState {
  user_requirement : string;
  reference_image : option string;
  image_analysis : option string;
  requirement_analysis : option string;
  generated_code : string;
  validation_passed : bool;
  validation_errors : list string;
  compile_result : Task.CompileResult;
  retry_count : Z;
  max_retries : Z;
  error_history : list string;
  current_stage : string;
  is_complete : bool;
  error : option string
}.

(** [ShaderGenState.can_retry]. *)
Definition can_retry (s : ShaderGenState) : bool :=
  retry_count s <? max_retries s.

(** A node returns a dictionary of field updates, which the graph merges into
    the state. *)
Inductive FieldUpdate :=
| U_image_analysis (v : option string)
| U_requirement_analysis (v : option string)
| U_generated_code (v : string)
| U_validation_passed (v : bool)
| U_validation_errors (v : list string)
| U_retry_count (v : Z)
| U_current_stage (v : string)
| U_is_complete (v : bool)
| U_error (v : option string).

Definition Update := list FieldUpdate.

Definition apply_field (s : ShaderGenState) (u : FieldUpdate) : ShaderGenState :=
  match u with
  | U_image_analysis v =>
      mkState (user_requirement s) (reference_image s) v (requirement_analysis s)
        (generated_code s) (validation_passed s) (validation_errors s)
        (compile_result s) (retry_count s) (max_retries s) (error_history s)
        (current_stage s) (is_complete s) (error s)
  | U_requirement_analysis v =>
      mkState (user_requirement s) (reference_image s) (image_analysis s) v
        (generated_code s) (validation_passed s) (validation_errors s)
        (compile_result s) (retry_count s) (max_retries s) (error_history s)
        (current_stage s) (is_complete s) (error s)
  | U_generated_code v =>
      mkState (user_requirement s) (reference_image s) (image_analysis s)
        (requirement_analysis s) v (validation_passed s) (validation_errors s)
        (compile_result s) (retry_count s) (max_retries s) (error_history s)
        (current_stage s) (is_complete s) (error s)
  | U_validation_passed v =>
      mkState (user_requirement s) (reference_image s) (image_analysis s)
        (requirement_analysis s) (generated_code s) v (validation_errors s)
        (compile_result s) (retry_count s) (max_retries s) (error_history s)
        (current_stage s) (is_complete s) (error s)
  | U_validation_errors v =>
      mkState (user_requirement s) (reference_image s) (image_analysis s)
        (requirement_analysis s) (generated_code s) (validation_passed s) v
        (compile_result s) (retry_count s) (max_retries s) (error_history s)
        (current_stage s) (is_complete s) (error s)
  | U_retry_count v =>
      mkState (user_requirement s) (reference_image s) (image_analysis s)
        (requirement_analysis s) (generated_code s) (validation_passed s)
        (validation_errors s) (compile_result s) v (max_retries s)
        (error_history s) (current_stage s) (is_complete s) (error s)
  | U_current_stage v =>
      mkState (user_requirement s) (reference_image s) (image_analysis s)
        (requirement_analysis s) (generated_code s) (validation_passed s)
        (validation_errors s) (compile_result s) (retry_count s) (max_retries s)
        (error_history s) v (is_complete s) (error s)
  | U_is_complete v =>
      mkState (user_requirement s) (reference_image s) (image_analysis s)
        (requirement_analysis s) (generated_code s) (validation_passed s)
        (validation_errors s) (compile_result s) (retry_count s) (max_retries s)
        (error_history s) (current_stage s) v (error s)
  | U_error v =>
      mkState (user_requirement s) (reference_image s) (image_analysis s)
        (requirement_analysis s) (generated_code s) (validation_passed s)
        (validation_errors s) (compile_result s) (retry_count s) (max_retries s)
        (error_history s) (current_stage s) (is_complete s) v
  end.

Definition merge (s : ShaderGenState) (u : Update) : ShaderGenState :=
  fold_left apply_field u s.

(** [current_state.compile_result = compile_result] in the runner. *)
Definition set_compile_result (s : ShaderGenState) (r : Task.CompileResult)
  : ShaderGenState :=
  mkState (user_requirement s) (reference_image s) (image_analysis s)
    (requirement_analysis s) (generated_code s) (validation_passed s)
    (validation_errors s) r (retry_count s) (max_retries s)
    (error_history s) (current_stage s) (is_complete s) (error s).

(** ** graphs/shader_gen/nodes.py: the validation gate *)

(** One checklist item of [validate_shader]:
    [if marker not in code: validation_errors.append(msg)]. *)
Definition check_item (marker msg code : string) : list string :=
  if negb (Py.str_in marker code) then [msg] else [].

(** The quotation mark, and the marker of a top-level declaration: the word
    Shader, a space and a quotation mark. *)
Definition dquote : string := String (ascii_of_nat 34) EmptyString.
Definition shader_decl_marker : string := "Shader " ++ dquote.

(** The first item tests the same marker twice:
    [if MARKER not in code and MARKER not in code]. *)
Definition check_shader_decl (code : string) : list string :=
  if negb (Py.str_in shader_decl_marker code)
     && negb (Py.str_in shader_decl_marker code)
  then ["Missing Shader declaration"] else [].

(** The deficiency list of [validate_shader], in the order the checks run. *)
Definition deficiencies (code : string) : list string :=
  check_shader_decl code
  ++ check_item "SubShader" "Missing SubShader block" code
  ++ check_item "Pass" "Missing Pass block" code
  ++ check_item "#pragma vertex" "Missing #pragma vertex directive" code
  ++ check_item "#pragma fragment" "Missing #pragma fragment directive" code
  ++ check_item "com.unity.render-pipelines"
       "Missing URP include (Packages/com.unity.render-pipelines.universal/...)"
       code
  ++ check_item "HLSLPROGRAM"
       "Missing HLSLPROGRAM block (using CGPROGRAM instead of HLSL?)" code
  ++ check_item "ENDHLSL" "Missing ENDHLSL" code.

(** [x or EMPTY] on a string. *)
Definition or_empty (x : string) : string :=
  match x with EmptyString => "" | _ => x end.

(** [validate_shader]. *)
Definition validate_shader (state : ShaderGenState) : Update :=
  let code := or_empty (generated_code state) in
  let validation_errors := deficiencies code in
  let is_valid := (length validation_errors =? 0)%nat in
  [ U_validation_passed is_valid;
    U_validation_errors validation_errors;
    U_current_stage (if is_valid then "validated" else "validation_failed") ].

(** The verdict alone, as a function of the artifact. *)
Definition verdict (code : string) : bool :=
  (length (deficiencies (or_empty code)) =? 0)%nat.

(** [check_should_compile]. *)
Inductive CompileOrFix := to_compile | to_fix.

Definition check_should_compile (state : ShaderGenState) : CompileOrFix :=
  if validation_passed state then to_compile else to_fix.

(** ** graphs/shader_gen/nodes.py: the compile-retry path *)

(** [compile_result.success]. [CompileResult] declares [status],
    [shader_id], [errors], [warnings] and [compile_time_ms]; it has no
    [success], and the read raises. *)
Definition CompileResult_success (r : Task.CompileResult) : Outcome bool :=
  Raise (AttributeError "'CompileResult' object has no attribute 'success'").

(** [state.compile_result and state.compile_result.success]: a
    [CompileResult] is an object without a length or a truth value of its own,
    so the left operand is true and the right one is read. *)
Definition compile_succeeded (state : ShaderGenState) : Outcome bool :=
  CompileResult_success (compile_result state).

(** [handle_compile_result]. *)
Definition handle_compile_result (state : ShaderGenState) : Outcome Update :=
  match compile_succeeded state with
  | Raise e => Raise e
  | Ret true => Ret [ U_current_stage "compiled" ]
  | Ret false =>
      Ret [ U_retry_count (retry_count state + 1);
            U_current_stage "compile_failed" ]
  end.

(** [check_should_retry]. *)
Inductive RetryDecision := to_retry | to_fail | to_success.

Definition check_should_retry (state : ShaderGenState)
  : Outcome RetryDecision :=
  match compile_succeeded state with
  | Raise e => Raise e
  | Ret true => Ret to_success
  | Ret false => Ret (if can_retry state then to_retry else to_fail)
  end.

(** [prepare_retry], [finalize_success]. *)
Definition prepare_retry (state : ShaderGenState) : Update :=
  [ U_current_stage "retrying" ].

Definition finalize_success (state : ShaderGenState) : Update :=
  [ U_is_complete true; U_current_stage "complete" ].

Definition nl : string := String (ascii_of_nat 10) EmptyString.

(** [finalize_failure]. The errors of a [CompileResult] are [CompileError]
    objects; joining them as strings raises as soon as there is one. *)
Definition finalize_failure (state : ShaderGenState) : Outcome Update :=
  let error_summary :=
    "Shader generation failed after maximum retry attempts." in
  match Task.errors (compile_result state) with
  | [] =>
      Ret [ U_is_complete true; U_error (Some error_summary);
            U_current_stage "failed" ]
  | _ :: _ =>
      Raise (TypeError
               "sequence item 0: expected str instance, CompileError found")
  end.

(** ** graphs/shader_gen/nodes.py: the nodes that call the generator *)

(** The collecting loop of [extract_shader_code] over the lines of a reply. *)
Fixpoint collect_block (in_code_block : bool) (lines : list string)
  : list string :=
  match lines with
  | [] => []
  | line :: rest =>
      if String.prefix "```" (Py.strip line) then
        if in_code_block then [] else collect_block true rest
      else if in_code_block then line :: collect_block true rest
      else collect_block in_code_block rest
  end.

(** [extract_shader_code]. *)
Definition extract_shader_code (response : string) : string :=
  let fenced :=
    if Py.str_in "```" response then
      collect_block false (Py.split_on (ascii_of_nat 10) response)
    else [] in
  match fenced with
  | _ :: _ => Py.join nl fenced
  | [] =>
      if Py.str_in shader_decl_marker response
         || Py.str_in shader_decl_marker response
      then match Py.from_first shader_decl_marker response with
           | Some tail => Py.strip tail
           | None => Py.strip response
           end
      else Py.strip response
  end.

(** Truthiness of an optional string or byte string. *)
Definition truthy (x : option string) : bool :=
  match x with
  | Some (String _ _) => true
  | _ => false
  end.

Section Nodes.

(** [model_manager.generate(messages, role)]: the text returned by the
    [k]-th call made during the task. The prompt decides nothing in the
    workflow but this text, so the oracle is indexed by the call. *)
Variable generate : nat -> string.

(** [analyze_image]. *)
Definition analyze_image (state : ShaderGenState) (k : nat) : Update * nat :=
  if negb (truthy (reference_image state)) then
    ([ U_image_analysis None; U_current_stage "no_image" ], k)
  else
    let analysis := generate k in
    ([ U_image_analysis (Some analysis); U_current_stage "image_analyzed" ],
     S k).

(** [analyze_requirement]. *)
Definition analyze_requirement (state : ShaderGenState) (k : nat)
  : Update * nat :=
  let analysis := generate k in
  let combined_analysis :=
    if truthy (image_analysis state) then
      "User Requirement Analysis:" ++ nl ++ analysis ++ nl ++ nl
        ++ "Image Style Analysis:" ++ nl
        ++ default "" (image_analysis state)
    else analysis in
  ([ U_requirement_analysis (Some combined_analysis);
     U_current_stage "analyzed" ], S k).

(** [generate_shader]. *)
Definition generate_shader (state : ShaderGenState) (k : nat) : Update * nat :=
  let shader_code := generate k in
  let shader_code := extract_shader_code shader_code in
  ([ U_generated_code shader_code; U_current_stage "generated" ], S k).

(** [fix_validation_errors]. *)
Definition fix_validation_errors (state : ShaderGenState) (k : nat)
  : Update * nat :=
  let fixed_code := generate k in
  let fixed_code := extract_shader_code fixed_code in
  ([ U_generated_code fixed_code; U_current_stage "fixed" ], S k).

End Nodes.

(** ** graphs/shader_gen/graph.py *)

(** The nodes [add_node] registers, and [END]. *)
Inductive Node :=
| N_analyze_image | N_analyze | N_generate | N_validate | N_fix
| N_compile_check | N_retry | N_success | N_fail | END.

(** [check_has_image], composed with the entry-point table. *)
Definition check_has_image (state : ShaderGenState) : Node :=
  if truthy (reference_image state) then N_analyze_image else N_analyze.

(** The initial [ShaderGenState] built by [ShaderGenRunner.run]: [image] is
    the value of [image_bytes] after the image handling at the top of [run]
    (see [image_handling] below); the fields not passed there take the
    defaults of the class. *)
Definition initial_state (requirement : string) (max_retries : Z)
    (image : option string) : ShaderGenState :=
  {| user_requirement := requirement;
     reference_image := image;
     image_analysis := None;
     requirement_analysis := None;
     generated_code := "";
     validation_passed := false;
     validation_errors := [];
     compile_result := Task.CompileResult_default;
     retry_count := 0;
     max_retries := max_retries;
     error_history := [];
     current_stage := "init";
     is_complete := false;
     error := None |}.

(** Where the runner stands: inside one of its two [graph.ainvoke] calls, at a
    node of the graph or at its [END]; returned; or ended by an exception of
    a node or of a conditional edge. [Invoke false] is the call at the top
    of the loop, [Invoke true] the call after a tool reply. The graph is
    compiled without a checkpointer and no edge leads to [compile_check], so
    both calls enter the graph at its entry point: the second argument of the
    call after a reply selects nothing. An invocation runs the nodes along
    the edges that [create_shader_gen_graph] declares until [END]. *)
Inductive Loc :=
| Invoke (resumed : bool) (n : Node)
| Returned
| Raised (e : Exn).

Record Config := mkConfig {
  loc : Loc;
  st : ShaderGenState;
  llm_calls : nat;
  tool_calls : nat
}.

(** What a step shows to the outside: nothing, or the compile request sent to
    the tool host, with the artifact it carries. *)
Inductive Label :=
| Tau
| ToolCall (tool_name : string) (code : string).

Section Graph.

Variable generate : nat -> string.

(** [on_tool_call]: absent, or a callback; its reply to the [k]-th request
    is what the runner stores as [compile_result]. The reply is taken to be
    a [CompileResult], the type the field declares. *)
Variable on_tool_call : option (nat -> string -> Task.CompileResult).

(** The function [add_node] binds to each node. *)
Definition node_fn (n : Node) (state : ShaderGenState) (k : nat)
  : Outcome (Update * nat) :=
  match n with
  | N_analyze_image => Ret (analyze_image generate state k)
  | N_analyze => Ret (analyze_requirement generate state k)
  | N_generate => Ret (generate_shader generate state k)
  | N_validate => Ret (validate_shader state, k)
  | N_fix => Ret (fix_validation_errors generate state k)
  | N_compile_check =>
      match handle_compile_result state with
      | Ret u => Ret (u, k)
      | Raise e => Raise e
      end
  | N_retry => Ret (prepare_retry state, k)
  | N_success => Ret (finalize_success state, k)
  | N_fail =>
      match finalize_failure state with
      | Ret u => Ret (u, k)
      | Raise e => Raise e
      end
  | END => Ret ([], k)
  end.

(** The edges: [add_edge] and [add_conditional_edges], read on the state
    after the node's update. *)
Definition next_node (n : Node) (state : ShaderGenState) : Outcome Node :=
  match n with
  | N_analyze_image => Ret N_analyze
  | N_analyze => Ret N_generate
  | N_generate => Ret N_validate
  | N_validate =>
      match check_should_compile state with
      | to_compile => Ret END
      | to_fix => Ret N_fix
      end
  | N_fix => Ret N_validate
  | N_compile_check =>
      match check_should_retry state with
      | Ret to_retry => Ret N_retry
      | Ret to_fail => Ret N_fail
      | Ret to_success => Ret N_success
      | Raise e => Raise e
      end
  | N_retry => Ret N_generate
  | N_success => Ret END
  | N_fail => Ret END
  | END => Ret END
  end.

(** One step of [ShaderGenRunner.run]: a node of the graph runs and its
    edge is followed, or, at the end of an [ainvoke], the body of the
    [while True] loop continues. The limit the graph library puts on the
    steps of one invocation is added by [bounded_step] below. *)
Definition step (c : Config) : option (Label * Config) :=
  match loc c with
  | Returned => None
  | Raised _ => None
  | Invoke false END =>
      if validation_passed (st c) && negb (is_complete (st c)) then
        match on_tool_call with
        | Some callback =>
            let reply := callback (tool_calls c) (generated_code (st c)) in
            let s := set_compile_result (st c) reply in
            Some (ToolCall "compile_shader" (generated_code (st c)),
                  mkConfig (Invoke true (check_has_image s)) s
                    (llm_calls c) (S (tool_calls c)))
        | None => Some (Tau, mkConfig Returned (st c) (llm_calls c) (tool_calls c))
        end
      else if is_complete (st c) then
        Some (Tau, mkConfig Returned (st c) (llm_calls c) (tool_calls c))
      else
        Some (Tau, mkConfig (Invoke false (check_has_image (st c))) (st c)
                     (llm_calls c) (tool_calls c))
  | Invoke true END =>
      if is_complete (st c) then
        Some (Tau, mkConfig Returned (st c) (llm_calls c) (tool_calls c))
      else
        Some (Tau, mkConfig (Invoke false (check_has_image (st c))) (st c)
                     (llm_calls c) (tool_calls c))
  | Invoke r n =>
      match node_fn n (st c) (llm_calls c) with
      | Raise e =>
          Some (Tau, mkConfig (Raised e) (st c) (llm_calls c) (tool_calls c))
      | Ret (u, k) =>
          let s := merge (st c) u in
          match next_node n s with
          | Raise e => Some (Tau, mkConfig (Raised e) s k (tool_calls c))
          | Ret n' => Some (Tau, mkConfig (Invoke r n') s k (tool_calls c))
          end
      end
  end.

(** [n] steps, stopping where the runner has returned or raised. *)
Fixpoint steps (n : nat) (c : Config) : Config :=
  match n with
  | O => c
  | S m => match step c with
           | Some (_, c') => steps m c'
           | None => c
           end
  end.

Definition initial_config (requirement : string) (max_retries : Z)
    (image : option string) : Config :=
  let s := initial_state requirement max_retries image in
  mkConfig (Invoke false (check_has_image s)) s 0 0.

(** The configurations a run of the runner passes through. *)
Inductive Reachable (c0 : Config) : Config -> Prop :=
| reach_start : Reachable c0 c0
| reach_step c l c' : Reachable c0 c -> step c = Some (l, c') -> Reachable c0 c'.

(** *** The step limit of the graph library *)

(** The graph is compiled and invoked with the library's own configuration,
    which limits the steps of one invocation: an invocation that has run
    [recursion_limit] nodes and still has a node to run ends with
    [GraphRecursionError], which [run] does not catch. The sources set no
    limit of their own; [recursion_limit], the number of nodes the library
    lets one invocation run, is a parameter. A bounded configuration pairs a
    configuration with the number of nodes the current invocation has run;
    [out_of_steps] marks a run ended by the library's error. *)
Variable recursion_limit : nat.

Record Bounded := mkBounded {
  used : nat;
  out_of_steps : bool;
  config : Config
}.

Definition bounded_step (b : Bounded) : option (Label * Bounded) :=
  if out_of_steps b then None
  else
    match loc (config b) with
    | Returned | Raised _ => None
    | Invoke _ END =>
        match step (config b) with
        | Some (l, c') => Some (l, mkBounded 0 false c')
        | None => None
        end
    | Invoke _ _ =>
        if (recursion_limit <=? used b)%nat then
          Some (Tau, mkBounded (used b) true (config b))
        else
          match step (config b) with
          | Some (l, c') => Some (l, mkBounded (S (used b)) false c')
          | None => None
          end
    end.

Fixpoint bounded_steps (n : nat) (b : Bounded) : Bounded :=
  match n with
  | O => b
  | S m => match bounded_step b with
           | Some (_, b') => bounded_steps m b'
           | None => b
           end
  end.

(** The start of [run]. *)
Definition initial_run (requirement : string) (max_retries : Z)
    (image : option string) : Bounded :=
  mkBounded 0 false (initial_config requirement max_retries image).

(** The bounded configurations a run passes through. *)
Inductive Run (b0 : Bounded) : Bounded -> Prop :=
| run_start : Run b0 b0
| run_step b l b' : Run b0 b -> bounded_step b = Some (l, b') -> Run b0 b'.

End Graph.

(** ** server/messages.py and server/message_handler.py *)

#[local] Set Warnings "-register-all".

(** A decoded JSON value, as [json.loads] returns it. *)
Inductive json :=
| JNull
| JBool (b : bool)
| JInt (n : Z)
| JFloat (repr : string)
| JStr (s : string)
| JArr (items : list json)
| JObj (members : list (string * json)).

(** The outcome of a library call that validates its input: the value, or the
    text of the error it raises ([json.JSONDecodeError],
    [pydantic.ValidationError]). *)
Inductive Validated (A : Type) :=
| Valid (a : A)
| Invalid (detail : string).
Arguments Valid {A} a.
Arguments Invalid {A} detail.

(** [MessageType], with the members [messages.py] declares. *)
Inductive MessageType :=
| SESSION_INIT | USER_MESSAGE | TOOL_RESPONSE | CONFIRM_RESPONSE
| CANCEL_TASK | SESSION_END | PING.

Definition MessageType_value (t : MessageType) : string :=
  match t with
  | SESSION_INIT => "SESSION_INIT"
  | USER_MESSAGE => "USER_MESSAGE"
  | TOOL_RESPONSE => "TOOL_RESPONSE"
  | CONFIRM_RESPONSE => "CONFIRM_RESPONSE"
  | CANCEL_TASK => "CANCEL_TASK"
  | SESSION_END => "SESSION_END"
  | PING => "ping"
  end.

Definition all_MessageTypes : list MessageType :=
  [SESSION_INIT; USER_MESSAGE; TOOL_RESPONSE; CONFIRM_RESPONSE;
   CANCEL_TASK; SESSION_END; PING].

(** [MessageType(value)]: the member with that value; [None] stands for the
    [ValueError] of an unknown value. *)
Definition MessageType_of_value (v : string) : option MessageType :=
  List.find (fun t => String.eqb (MessageType_value t) v) all_MessageTypes.

#[global] Instance MessageType_eq_dec : EqDecision MessageType.
Proof. solve_decision. Defined.

Definition MessageType_code (t : MessageType) : nat :=
  match t with
  | SESSION_INIT => 0 | USER_MESSAGE => 1 | TOOL_RESPONSE => 2
  | CONFIRM_RESPONSE => 3 | CANCEL_TASK => 4 | SESSION_END => 5 | PING => 6
  end%nat.

#[global] Program Instance MessageType_countable : Countable MessageType :=
  inj_countable' MessageType_code
    (fun n => nth n all_MessageTypes PING) _.
Next Obligation. by intros []. Qed.

(** [MessageType.NAME]: the member of that name. The class has no other
    attribute the handler asks for, so a name that is not a member raises. *)
Definition MessageType_members : list (string * MessageType) :=
  [("SESSION_INIT", SESSION_INIT); ("USER_MESSAGE", USER_MESSAGE);
   ("TOOL_RESPONSE", TOOL_RESPONSE); ("CONFIRM_RESPONSE", CONFIRM_RESPONSE);
   ("CANCEL_TASK", CANCEL_TASK); ("SESSION_END", SESSION_END);
   ("PING", PING)].

Definition MessageType_attr (name : string) : Outcome MessageType :=
  match List.find (fun kv => String.eqb (fst kv) name) MessageType_members with
  | Some (_, member) => Ret member
  | None => Raise (AttributeError name)
  end.

Definition MessageType_eqb (a b : MessageType) : bool :=
  bool_decide (a = b).

Definition UUID := N.

(** [BaseMessage]. An [id] or [timestamp] of [None] is one left to its
    [default_factory] ([uuid4], [datetime.utcnow]). *)
Record BaseMessage := mkMessage {
  id : option UUID;
  type : string;
  timestamp : option string;
  payload : list (string * json)
}.

(** Modelled from the spec: [create_error_message], which the handler imports
    from [messages.py] and that file does not define. The spec gives the
    server message [ERROR{code, message, details?}]; the [recoverable]
    argument of the call sites is kept beside them when it is passed. *)
Definition create_error_message (code message : string)
    (recoverable : option bool) : BaseMessage :=
  mkMessage None "ERROR" None
    ([("code", JStr code); ("message", JStr message)]
       ++ match recoverable with
          | Some r => [("recoverable", JBool r)]
          | None => []
          end).

(** The [code] of an [ERROR] message. *)
Definition error_code (m : BaseMessage) : option string :=
  if String.eqb (type m) "ERROR" then
    match List.find (fun kv => String.eqb (fst kv) "code") (payload m) with
    | Some (_, JStr c) => Some c
    | _ => None
    end
  else None.

(** [UserConfirmPayload]: the handler imports the class from [messages.py],
    which does not declare it. It is taken with the fields the handler reads,
    [payload.confirm_id], [payload.confirmed] and [payload.message] (here
    [confirm_message]); the validation of a payload against a class is a
    parameter of the handler's model. *)
Record UserConfirmPayload := mkConfirmPayload {
  confirm_id : UUID;
  confirmed : bool;
  confirm_message : option string
}.

(** [ToolResponsePayload], as [messages.py] declares it. *)
Record ToolResponsePayload := mkToolPayload {
  tool_call_id : string;
  result : list (string * json)
}.

(** [payload.request_id]: the class has the fields [tool_call_id] and
    [result] and no [request_id]; the read raises. *)
Definition ToolResponsePayload_request_id (payload : ToolResponsePayload)
  : Outcome UUID :=
  Raise (AttributeError
           "'ToolResponsePayload' object has no attribute 'request_id'").

(** A pending callback: called with the reply, it returns or raises; [Some e]
    is the text of the exception it raised. What it does to the task that
    awaits the reply is recorded by the handler as a delivery. *)
Definition ConfirmCallback := bool -> option string -> option string.
Definition ToolCallback := ToolResponsePayload -> option string.

(** A registered handler: [handler(message, context)]. *)
Definition Handler := BaseMessage -> Outcome (option BaseMessage).

(** A record written to the logger: its level and the fixed part of its
    text (an id interpolated at the end of the text is left out). *)
Inductive LogRecord :=
| log_debug (text : string)
| log_warning (text : string)
| log_error (text : string)
| log_exception (text : string).

(** A reply handed to the callback that awaited it. *)
Inductive Delivery :=
| ConfirmDelivered (p : UUID) (confirmed : bool) (message : option string)
| ToolDelivered (p : ToolResponsePayload).

(** [MessageHandler]: its three dictionaries, with the log records written
    and the replies delivered so far. *)
Record MessageHandler := mkHandler {
  _handlers : gmap MessageType Handler;
  _pending_confirms : gmap UUID ConfirmCallback;
  _pending_tool_calls : gmap UUID ToolCallback;
  logged : list LogRecord;
  delivered : list Delivery
}.

(** [MessageHandler.__init__]. *)
Definition new_handler : MessageHandler := mkHandler ∅ ∅ ∅ [] [].

(** Methods run on the handler object and return or raise. *)
Definition M (A : Type) := MessageHandler -> Outcome A * MessageHandler.

Definition ret {A} (a : A) : M A := fun self => (Ret a, self).
Definition raise {A} (e : Exn) : M A := fun self => (Raise e, self).
Definition lift {A} (o : Outcome A) : M A := fun self => (o, self).
Definition bind {A B} (m : M A) (f : A -> M B) : M B :=
  fun self =>
    match m self with
    | (Ret a, self') => f a self'
    | (Raise e, self') => (Raise e, self')
    end.

Notation "'let*' x := m 'in' k" := (bind m (fun x => k))
  (at level 10, x name, m at level 100, k at level 200, only parsing).
Notation "m >> k" := (bind m (fun _ => k))
  (at level 100, k at level 200, right associativity, only parsing).

Definition log (r : LogRecord) : M unit :=
  fun self =>
    (Ret tt, mkHandler (_handlers self) (_pending_confirms self)
               (_pending_tool_calls self) (logged self ++ [r]) (delivered self)).

Definition deliver (d : Delivery) : M unit :=
  fun self =>
    (Ret tt, mkHandler (_handlers self) (_pending_confirms self)
               (_pending_tool_calls self) (logged self) (delivered self ++ [d])).

(** [MessageHandler.register_handler]. *)
Definition register_handler (message_type : MessageType) (handler : Handler)
  : M unit :=
  fun self =>
    log (log_debug ("Registered handler for " ++ MessageType_value message_type))
      (mkHandler (<[message_type := handler]> (_handlers self))
         (_pending_confirms self) (_pending_tool_calls self)
         (logged self) (delivered self)).

(** [MessageHandler.register_confirm_callback]:
    [self._pending_confirms[confirm_id] = callback]. *)
Definition register_confirm_callback (confirm_id : UUID)
    (callback : ConfirmCallback) : M unit :=
  fun self =>
    (Ret tt,
     mkHandler (_handlers self)
       (<[confirm_id := callback]> (_pending_confirms self))
       (_pending_tool_calls self) (logged self) (delivered self)).

(** [MessageHandler.register_tool_callback]:
    [self._pending_tool_calls[request_id] = callback]. *)
Definition register_tool_callback (request_id : UUID)
    (callback : ToolCallback) : M unit :=
  fun self =>
    (Ret tt,
     mkHandler (_handlers self) (_pending_confirms self)
       (<[request_id := callback]> (_pending_tool_calls self))
       (logged self) (delivered self)).

(** [self._pending_confirms.pop(confirm_id, None)]. *)
Definition pop_confirm (k : UUID) : M (option ConfirmCallback) :=
  fun self =>
    (Ret (_pending_confirms self !! k),
     mkHandler (_handlers self) (delete k (_pending_confirms self))
       (_pending_tool_calls self) (logged self) (delivered self)).

(** [self._pending_tool_calls.pop(request_id, None)]. *)
Definition pop_tool_call (k : UUID) : M (option ToolCallback) :=
  fun self =>
    (Ret (_pending_tool_calls self !! k),
     mkHandler (_handlers self) (_pending_confirms self)
       (delete k (_pending_tool_calls self)) (logged self) (delivered self)).

(** [STRING in data] on a decoded JSON value: key membership in a dict,
    element membership in a list, substring of a string; [None], numbers and
    booleans are not containers and the test raises [TypeError]. *)
Definition py_in (key : string) (data : json) : Outcome bool :=
  match data with
  | JObj members => Ret (existsb (fun kv => String.eqb (fst kv) key) members)
  | JArr items =>
      Ret (existsb (fun v => match v with
                             | JStr s => String.eqb s key
                             | _ => false
                             end) items)
  | JStr s => Ret (Py.str_in key s)
  | JNull => Raise (TypeError "argument of type 'NoneType' is not iterable")
  | JBool _ => Raise (TypeError "argument of type 'bool' is not iterable")
  | JInt _ => Raise (TypeError "argument of type 'int' is not iterable")
  | JFloat _ => Raise (TypeError "argument of type 'float' is not iterable")
  end.

Section Handler.

(** The library calls the handler makes: [json.loads], and pydantic's
    [model_validate] for the envelope and for the two payload classes. *)
Variable json_loads : string -> Validated json.
Variable BaseMessage_model_validate : json -> Validated BaseMessage.
Variable UserConfirmPayload_model_validate
  : list (string * json) -> Validated UserConfirmPayload.
Variable ToolResponsePayload_model_validate
  : list (string * json) -> Validated ToolResponsePayload.

(** [MessageHandler.parse_message]. *)
Definition parse_message (raw_data : string) : Outcome BaseMessage :=
  match json_loads raw_data with
  | Invalid e => Raise (MessageParseError ("Invalid JSON: " ++ e) raw_data)
  | Valid data =>
      match py_in "type" data with
      | Raise e => Raise e
      | Ret false => Raise (MessageParseError "Missing 'type' field" raw_data)
      | Ret true =>
          match BaseMessage_model_validate data with
          | Valid m => Ret m
          | Invalid e =>
              Raise (MessageParseError ("Invalid message structure: " ++ e)
                       raw_data)
          end
      end
  end.

(** [MessageHandler.validate_payload], at the two classes it is called with. *)
Definition validate_payload {P : Type}
    (model_validate : list (string * json) -> Validated P)
    (message : BaseMessage) : Outcome P :=
  match model_validate (payload message) with
  | Valid p => Ret p
  | Invalid e =>
      Raise (MessageParseError
               ("Invalid payload for " ++ type message ++ ": " ++ e) "")
  end.

(** [MessageHandler._handle_confirm]. *)
Definition _handle_confirm (message : BaseMessage) : M (option BaseMessage) :=
  match validate_payload UserConfirmPayload_model_validate message with
  | Raise (MessageParseError e _) =>
      ret (Some (create_error_message "INVALID_CONFIRM" e None))
  | Raise e => raise e
  | Ret payload =>
      let* callback := pop_confirm (confirm_id payload) in
      match callback with
      | Some callback =>
          deliver (ConfirmDelivered (confirm_id payload) (confirmed payload)
                     (confirm_message payload)) >>
          match callback (confirmed payload) (confirm_message payload) with
          | Some e => log (log_exception ("Confirm callback error: " ++ e))
          | None => ret tt
          end >>
          ret None
      | None =>
          log (log_warning "No pending confirm") >>
          ret None
      end
  end.

(** [MessageHandler._handle_tool_response]. *)
Definition _handle_tool_response (message : BaseMessage)
  : M (option BaseMessage) :=
  match validate_payload ToolResponsePayload_model_validate message with
  | Raise (MessageParseError e _) =>
      ret (Some (create_error_message "INVALID_TOOL_RESPONSE" e None))
  | Raise e => raise e
  | Ret payload =>
      let* request_id := lift (ToolResponsePayload_request_id payload) in
      let* callback := pop_tool_call request_id in
      match callback with
      | Some callback =>
          deliver (ToolDelivered payload) >>
          match callback payload with
          | Some e => log (log_exception ("Tool response callback error: " ++ e))
          | None => ret tt
          end >>
          ret None
      | None =>
          log (log_warning "No pending tool call") >>
          ret None
      end
  end.

(** [MessageHandler.handle_message]. After the test for a ping the handler
    compares the type with [MessageType.USER_CONFIRM]; the attribute is read
    on every message that is not a ping. *)
Definition handle_message (raw_data : string) : M (option BaseMessage) :=
  match parse_message raw_data with
  | Raise (MessageParseError e _) =>
      log (log_error ("Failed to parse message: " ++ e)) >>
      ret (Some (create_error_message "PARSE_ERROR" e (Some true)))
  | Raise e => raise e
  | Ret message =>
      match MessageType_of_value (type message) with
      | None =>
          log (log_warning ("Unknown message type: " ++ type message)) >>
          ret (Some (create_error_message "UNKNOWN_MESSAGE_TYPE"
                       ("Unknown message type: " ++ type message) (Some true)))
      | Some msg_type =>
          if MessageType_eqb msg_type PING then
            ret (Some (mkMessage None "pong" None []))
          else
          let* user_confirm := lift (MessageType_attr "USER_CONFIRM") in
          if MessageType_eqb msg_type user_confirm then
            _handle_confirm message
          else if MessageType_eqb msg_type TOOL_RESPONSE then
            _handle_tool_response message
          else
          fun self =>
            match _handlers self !! msg_type with
            | None =>
                (log (log_warning ("No handler registered for "
                                     ++ MessageType_value msg_type)) >>
                 ret (Some (create_error_message "NO_HANDLER"
                              ("No handler for message type: "
                                 ++ MessageType_value msg_type) (Some true))))
                  self
            | Some handler =>
                match handler message with
                | Ret response => (Ret response, self)
                | Raise e =>
                    (log (log_exception ("Handler error for "
                                           ++ MessageType_value msg_type ++ ": "
                                           ++ exn_str e)) >>
                     ret (Some (create_error_message "HANDLER_ERROR"
                                  ("Error processing "
                                     ++ MessageType_value msg_type ++ ": "
                                     ++ exn_str e) (Some true))))
                      self
                end
            end
      end
  end.

(** ** server/websocket_server.py *)

(** What the receive loop of [_connection_handler] leaves behind: the
    messages sent back, the frames it never handled, and whether an
    exception ended the loop (the handler then returns, and the connection
    with it). *)
Record Connection := mkConnection {
  sent : list BaseMessage;
  unhandled : list string;
  ended_by_exception : option Exn
}.

(** [ShaderCopilotServer._connection_handler]: the loop
    [async for raw_message in websocket], over the text frames the peer
    sends; [websocket.send] is taken to succeed. An exception of
    [handle_message] is caught by [except Exception], which ends the loop. *)
Fixpoint _connection_handler (frames : list string) (self : MessageHandler)
  : Connection * MessageHandler :=
  match frames with
  | [] => (mkConnection [] [] None, self)
  | raw_message :: rest =>
      match handle_message raw_message self with
      | (Ret response, self') =>
          let (conn, self'') := _connection_handler rest self' in
          (mkConnection
             (match response with
              | Some m => m :: sent conn
              | None => sent conn
              end)
             (unhandled conn) (ended_by_exception conn), self'')
      | (Raise e, self') =>
          (mkConnection [] rest (Some e),
           snd (log (log_exception ("Connection error: " ++ exn_str e)) self'))
      end
  end.

End Handler.

(** * Properties *)

(** ** Sample inputs used by the concrete runs *)

(** A minimal artifact that carries every marker of the checklist. *)
Definition sample_shader : string :=
  shader_decl_marker ++ "Custom/Unlit" ++ dquote
  ++ " { SubShader { Pass { HLSLPROGRAM #pragma vertex vert"
  ++ " #pragma fragment frag #include " ++ dquote
  ++ "Packages/com.unity.render-pipelines.universal/ShaderLibrary/Core.hlsl"
  ++ dquote ++ " ENDHLSL } } }".

(** A generator that always answers with [sample_shader], one that always
    answers with the empty text, and a tool host whose every compile reply is
    the failure of Scenario B: status failed, one error at line 10. *)
Definition steady_generator : nat -> string := fun _ => sample_shader.
Definition scenario_errors : nat -> list Task.CompileError :=
  fun _ => [Task.mkCompileError 10 0 "syntax" "error"].
Definition failing_reply : nat -> string -> Task.CompileResult :=
  fun k _ => Task.mkCompileResult Task.FAILED None (scenario_errors k) [].
Definition failing_host : option (nat -> string -> Task.CompileResult) :=
  Some failing_reply.

(** ** The validation gate *)

Arguments deficiencies : simpl never.
Arguments extract_shader_code : simpl never.

(** The markers the checklist looks for. *)
Definition checklist_markers : list string :=
  [ shader_decl_marker; "SubShader"; "Pass"; "#pragma vertex";
    "#pragma fragment"; "com.unity.render-pipelines"; "HLSLPROGRAM";
    "ENDHLSL" ].

Lemma check_item_length marker msg code :
  (length (check_item marker msg code) <= 1)%nat.
Proof. unfold check_item. destruct (negb _); simpl; lia. Qed.

Lemma check_item_nil marker msg code :
  check_item marker msg code = [] <-> Py.str_in marker code = true.
Proof.
  unfold check_item. destruct (Py.str_in marker code); simpl; split; congruence.
Qed.

Lemma check_shader_decl_length code :
  (length (check_shader_decl code) <= 1)%nat.
Proof. unfold check_shader_decl. destruct (_ && _); simpl; lia. Qed.

Lemma check_shader_decl_nil code :
  check_shader_decl code = [] <-> Py.str_in shader_decl_marker code = true.
Proof.
  unfold check_shader_decl.
  destruct (Py.str_in shader_decl_marker code); simpl; split; congruence.
Qed.

Lemma deficiencies_nil code :
  deficiencies code = []
  <-> forallb (fun m => Py.str_in m code) checklist_markers = true.
Proof.
  unfold deficiencies, checklist_markers. cbn [forallb].
  rewrite !andb_true_iff, !app_nil.
  rewrite check_shader_decl_nil, !check_item_nil. tauto.
Qed.

Lemma length_zero_nil {A} (l : list A) : (length l =? 0)%nat = true <-> l = [].
Proof. destruct l; simpl; split; congruence. Qed.

Lemma verdict_true code :
  verdict code = true <-> deficiencies (or_empty code) = [].
Proof. unfold verdict. apply length_zero_nil. Qed.

Lemma or_empty_id code : or_empty code = code.
Proof. by destruct code. Qed.

(** What [validate_shader] writes, in terms of [verdict]. *)
Lemma validate_shader_eq state :
  validate_shader state =
    [ U_validation_passed (verdict (generated_code state));
      U_validation_errors (deficiencies (or_empty (generated_code state)));
      U_current_stage (if verdict (generated_code state)
                       then "validated" else "validation_failed") ].
Proof. reflexivity. Qed.

(** ** Substrings, lines and stripping *)

Lemma prefix_app a b : String.prefix a (a ++ b) = true.
Proof.
  induction a as [|x a IH]; [by destruct b|].
  change (String x a ++ b) with (String x (a ++ b)).
  cbn [String.prefix]. destruct (ascii_dec x x); [exact IH|congruence].
Qed.

Lemma prefix_refl a : String.prefix a a = true.
Proof.
  induction a as [|x a IH]; [done|].
  cbn [String.prefix]. destruct (ascii_dec x x); [exact IH|congruence].
Qed.

Lemma str_in_prefix p s : String.prefix p s = true -> Py.str_in p s = true.
Proof. intros H. destruct s; cbn [Py.str_in]; by rewrite H. Qed.

Lemma str_in_cons p c s : Py.str_in p s = true -> Py.str_in p (String c s) = true.
Proof. intros H. cbn [Py.str_in]. rewrite H. by destruct (String.prefix _ _). Qed.

Lemma str_in_app_r p pre s :
  Py.str_in p s = true -> Py.str_in p (pre ++ s) = true.
Proof.
  intros H. induction pre as [|c pre IH]; [exact H|].
  change (String c pre ++ s) with (String c (pre ++ s)). by apply str_in_cons.
Qed.

Lemma prefix_app_l p s post :
  String.prefix p s = true -> String.prefix p (s ++ post) = true.
Proof.
  revert p. induction s as [|c s IH]; intros [|a p] H; try done.
  - by destruct post.
  - change (String c s ++ post) with (String c (s ++ post)).
    cbn [String.prefix] in *. destruct (ascii_dec a c); [by apply IH|done].
Qed.

Lemma str_in_app_l p s post :
  Py.str_in p s = true -> Py.str_in p (s ++ post) = true.
Proof.
  induction s as [|c s IH]; intros H.
  - cbn [Py.str_in] in H. destruct (String.prefix p "") eqn:Hp; [|done].
    apply str_in_prefix. by apply (prefix_app_l p "" post).
  - cbn [Py.str_in] in H. destruct (String.prefix p (String c s)) eqn:Hp.
    + apply str_in_prefix. by apply prefix_app_l.
    + change (String c s ++ post) with (String c (s ++ post)).
      apply str_in_cons. by apply IH.
Qed.

Lemma str_in_wrapped p pre s post :
  Py.str_in p s = true -> Py.str_in p (pre ++ s ++ post) = true.
Proof. intros H. by apply str_in_app_r, str_in_app_l. Qed.

(** [prefix] and [from_first] as decompositions. *)
Lemma prefix_split p s :
  String.prefix p s = true -> exists rest, s = p ++ rest.
Proof.
  revert s. induction p as [|a p IH]; intros s H; [by exists s|].
  destruct s as [|c s]; [done|]. cbn [String.prefix] in H.
  destruct (ascii_dec a c) as [->|]; [|done].
  destruct (IH s H) as [rest ->]. by exists rest.
Qed.

Lemma from_first_spec p s tail :
  Py.from_first p s = Some tail ->
  String.prefix p tail = true
  /\ exists pre, s = pre ++ tail
       /\ forall a b, pre = a ++ b -> b <> "" -> String.prefix p (b ++ tail) = false.
Proof.
  revert tail. induction s as [|c s IH]; intros tail H.
  - cbn [Py.from_first] in H. destruct (String.prefix p "") eqn:Hp; [|done].
    injection H as <-. split; [done|]. exists "". split; [done|].
    intros [|x a] [|y b] Hab Hb; try done.
  - cbn [Py.from_first] in H. destruct (String.prefix p (String c s)) eqn:Hp.
    + injection H as <-. split; [done|]. exists "". split; [done|].
      intros [|x a] [|y b] Hab Hb; try done.
    + destruct (IH tail H) as (Ht & pre & -> & Hfirst). split; [done|].
      exists (String c pre). split; [done|].
      intros [|x a] b Hab Hb.
      * change ("" ++ b) with b in Hab. subst b. exact Hp.
      * change (String x a ++ b) with (String x (a ++ b)) in Hab.
        injection Hab as _ ->. by apply (Hfirst a b).
Qed.

Lemma from_first_some p s :
  Py.str_in p s = true -> exists tail, Py.from_first p s = Some tail.
Proof.
  induction s as [|c s IH]; intros H; cbn [Py.str_in Py.from_first] in *.
  - destruct (String.prefix p ""); [by eexists|done].
  - destruct (String.prefix p (String c s)); [by eexists|by apply IH].
Qed.

(** What [lstrip] removes is at the start. *)
Lemma lstrip_split_upto n s :
  (String.length s <= n)%nat -> exists ws, s = ws ++ Py.lstrip s.
Proof.
  revert s. induction n as [|n IH]; intros s Hn.
  - destruct s; [by exists ""|cbn in Hn; lia].
  - destruct s as [|a [|b [|c s]]]; cbn [Py.lstrip].
    + by exists "".
    + destruct (Py.is_space a); [by exists (String a "")|by exists ""].
    + destruct (Py.is_space a).
      * destruct (IH (String b "")) as [ws Hws]; [cbn in *; lia|].
        exists (String a ws). cbn. by rewrite Hws at 1.
      * destruct (Py.is_space2 a b);
          [by exists (String a (String b ""))|by exists ""].
    + destruct (Py.is_space a).
      * destruct (IH (String b (String c s))) as [ws Hws]; [cbn in *; lia|].
        exists (String a ws). cbn. by rewrite Hws at 1.
      * destruct (Py.is_space2 a b).
        -- destruct (IH (String c s)) as [ws Hws]; [cbn in *; lia|].
           exists (String a (String b ws)). cbn. by rewrite Hws at 1.
        -- destruct (Py.is_space3 a b c); [|by exists ""].
           destruct (IH s) as [ws Hws]; [cbn in *; lia|].
           exists (String a (String b (String c ws))). cbn.
           by rewrite Hws at 1.
Qed.

Lemma lstrip_split s : exists ws, s = ws ++ Py.lstrip s.
Proof. by apply (lstrip_split_upto (String.length s)). Qed.

(** What [rstrip] removes is at the end. *)
Lemma rstrip_split s : exists ws, s = Py.rstrip s ++ ws.
Proof.
  induction s as [|c s [ws IH]]; [by exists ""|].
  cbn [Py.rstrip]. destruct (Py.all_space (String c s)).
  - by exists (String c s).
  - exists ws. cbn. by rewrite IH at 1.
Qed.

(** An ASCII character that is no space is part of no white space. *)
Lemma is_byte_ascii n c :
  (nat_of_ascii c < 128)%nat -> (128 <= n)%nat -> Py.is_byte n c = false.
Proof. intros Hc Hn. unfold Py.is_byte. apply Nat.eqb_neq. lia. Qed.

Lemma is_space2_ascii_l a b :
  (nat_of_ascii a < 128)%nat -> Py.is_space2 a b = false.
Proof.
  intros Ha. unfold Py.is_space2. by rewrite (is_byte_ascii 194 a Ha) by lia.
Qed.

Lemma is_space2_ascii_r a b :
  (nat_of_ascii b < 128)%nat -> Py.is_space2 a b = false.
Proof.
  intros Hb. unfold Py.is_space2.
  rewrite (is_byte_ascii 133 b Hb), (is_byte_ascii 160 b Hb) by lia.
  apply andb_false_r.
Qed.

Lemma is_space3_ascii_l a b c :
  (nat_of_ascii a < 128)%nat -> Py.is_space3 a b c = false.
Proof.
  intros Ha. unfold Py.is_space3.
  by rewrite (is_byte_ascii 225 a Ha), (is_byte_ascii 226 a Ha),
    (is_byte_ascii 227 a Ha) by lia.
Qed.

Lemma is_space3_ascii_m a b c :
  (nat_of_ascii b < 128)%nat -> Py.is_space3 a b c = false.
Proof.
  intros Hb. unfold Py.is_space3.
  rewrite (is_byte_ascii 154 b Hb), (is_byte_ascii 128 b Hb),
    (is_byte_ascii 129 b Hb) by lia.
  by rewrite !andb_false_r.
Qed.

Lemma is_space3_ascii_r a b c :
  (nat_of_ascii c < 128)%nat -> Py.is_space3 a b c = false.
Proof.
  intros Hc. unfold Py.is_space3.
  rewrite (is_byte_ascii 128 c Hc), (is_byte_ascii 168 c Hc),
    (is_byte_ascii 169 c Hc), (is_byte_ascii 175 c Hc),
    (is_byte_ascii 159 c Hc) by lia.
  assert (H : (128 <=? nat_of_ascii c)%nat = false) by (apply Nat.leb_gt; lia).
  rewrite H. by rewrite !andb_false_r.
Qed.

(** A text that holds such a character is not white space only. *)
Lemma all_space_stopped_upto n p c rest :
  (String.length p <= n)%nat ->
  (nat_of_ascii c < 128)%nat -> Py.is_space c = false ->
  Py.all_space (p ++ String c rest) = false.
Proof.
  intros Hn Hc Hs. revert p Hn. unfold Py.all_space.
  induction n as [|n IH]; intros p Hn.
  - destruct p; [|cbn in Hn; lia].
    change ("" ++ String c rest) with (String c rest).
    cbn [Py.lstrip]. rewrite Hs.
    destruct rest as [|b [|d rest]]; [done| |].
    + by rewrite (is_space2_ascii_l c b Hc).
    + by rewrite (is_space2_ascii_l c b Hc), (is_space3_ascii_l c b d Hc).
  - destruct p as [|a [|b [|d p]]].
    + apply (IH ""). cbn. lia.
    + change (String a "" ++ String c rest) with (String a (String c rest)).
      cbn [Py.lstrip]. destruct (Py.is_space a).
      * apply (IH ""). cbn. lia.
      * rewrite (is_space2_ascii_r a c Hc).
        destruct rest as [|e rest]; [done|].
        by rewrite (is_space3_ascii_m a c e Hc).
    + change (String a (String b "") ++ String c rest)
        with (String a (String b (String c rest))).
      cbn [Py.lstrip]. destruct (Py.is_space a).
      * apply (IH (String b "")). cbn in *. lia.
      * destruct (Py.is_space2 a b).
        -- apply (IH ""). cbn. lia.
        -- by rewrite (is_space3_ascii_r a b c Hc).
    + change (String a (String b (String d p)) ++ String c rest)
        with (String a (String b (String d (p ++ String c rest)))).
      cbn [Py.lstrip]. destruct (Py.is_space a).
      * apply (IH (String b (String d p))). cbn in *. lia.
      * destruct (Py.is_space2 a b).
        -- apply (IH (String d p)). cbn in *. lia.
        -- destruct (Py.is_space3 a b d); [|done].
           apply (IH p). cbn in *. lia.
Qed.

(** [rstrip] keeps a start that ends in an ASCII character that is no
    space. *)
Lemma rstrip_keeps p c rest :
  (nat_of_ascii c < 128)%nat -> Py.is_space c = false ->
  Py.rstrip (p ++ String c rest) = p ++ String c (Py.rstrip rest).
Proof.
  intros Hc Hs. induction p as [|a p IH].
  - pose proof (all_space_stopped_upto _ "" c rest (le_n _) Hc Hs) as H.
    change ("" ++ String c rest) with (String c rest) in *.
    change ("" ++ String c (Py.rstrip rest)) with (String c (Py.rstrip rest)).
    cbn [Py.rstrip]. by rewrite H.
  - pose proof (all_space_stopped_upto _ (String a p) c rest (le_n _) Hc Hs)
      as H.
    change (String a p ++ String c rest)
      with (String a (p ++ String c rest)) in *.
    cbn [Py.rstrip]. by rewrite H, IH.
Qed.

Lemma str_in_strip p s :
  String.prefix p (Py.strip s) = true -> Py.str_in p s = true.
Proof.
  unfold Py.strip. intros H.
  destruct (lstrip_split s) as [ws Hs]. rewrite Hs. apply str_in_app_r.
  destruct (rstrip_split (Py.lstrip s)) as [ws' Hs']. rewrite Hs'.
  by apply str_in_prefix, prefix_app_l.
Qed.

(** ** Validation looks for markers only *)

Lemma check_item_wrapped marker msg pre code post :
  check_item marker msg (pre ++ code ++ post)
    `sublist_of` check_item marker msg code.
Proof.
  unfold check_item. destruct (Py.str_in marker code) eqn:H.
  - by rewrite (str_in_wrapped _ pre _ post H).
  - cbn. destruct (negb _); [done|apply sublist_nil_l].
Qed.

Lemma check_shader_decl_wrapped pre code post :
  check_shader_decl (pre ++ code ++ post) `sublist_of` check_shader_decl code.
Proof.
  unfold check_shader_decl. destruct (Py.str_in shader_decl_marker code) eqn:H.
  - by rewrite (str_in_wrapped _ pre _ post H).
  - cbn. destruct (_ && _); [done|apply sublist_nil_l].
Qed.

(** X7. Text added before and after an artifact can only remove deficiencies:
    the deficiency list of the wrapped artifact is a sublist (same order) of
    the list of the artifact, so an artifact that passes still passes when a
    reply wraps it in other text. *)
Theorem validation_survives_wrapping (pre code post : string) :
  deficiencies (or_empty (pre ++ code ++ post))
    `sublist_of` deficiencies (or_empty code)
  /\ (verdict code = true -> verdict (pre ++ code ++ post) = true).
Proof.
  assert (H : deficiencies (or_empty (pre ++ code ++ post))
                `sublist_of` deficiencies (or_empty code)).
  { rewrite !or_empty_id. unfold deficiencies.
    repeat (apply sublist_app;
            [first [apply check_shader_decl_wrapped | apply check_item_wrapped]|]).
    apply check_item_wrapped. }
  split; [exact H|]. rewrite !verdict_true. intros Hnil. rewrite Hnil in H.
  by apply sublist_nil_r in H.
Qed.

(** ** What [extract_shader_code] returns *)

(** A line that [extract_shader_code] reads as a fence. *)
Definition is_fence (line : string) : bool :=
  String.prefix "```" (Py.strip line).

(** A text of ASCII characters only: each of its characters is one
    byte. *)
Fixpoint ascii_only (s : string) : bool :=
  match s with
  | EmptyString => true
  | String c rest => (nat_of_ascii c <? 128)%nat && ascii_only rest
  end.

(** A line holds no newline. *)
Fixpoint one_line (s : string) : bool :=
  match s with
  | EmptyString => true
  | String c rest => negb (Ascii.eqb c (ascii_of_nat 10)) && one_line rest
  end.

Lemma split_on_one_line s :
  one_line s = true -> Py.split_on (ascii_of_nat 10) s = [s].
Proof.
  induction s as [|c s IH]; [done|]. cbn [one_line Py.split_on].
  intros [Hc Hs]%andb_prop. apply negb_true_iff in Hc. rewrite Hc.
  by rewrite (IH Hs).
Qed.

Lemma split_on_line_then s rest :
  one_line s = true ->
  Py.split_on (ascii_of_nat 10) (s ++ nl ++ rest)
  = s :: Py.split_on (ascii_of_nat 10) rest.
Proof.
  induction s as [|c s IH]; intros H.
  - change ("" ++ nl ++ rest) with (String (ascii_of_nat 10) rest).
    cbn [Py.split_on]. by rewrite Ascii.eqb_refl.
  - change (String c s ++ nl ++ rest) with (String c (s ++ nl ++ rest)).
    cbn [one_line] in H. apply andb_prop in H as [Hc Hs].
    apply negb_true_iff in Hc. cbn [Py.split_on]. rewrite Hc.
    by rewrite (IH Hs).
Qed.

(** Splitting undoes joining, for lines without newlines. *)
Lemma split_on_join lines :
  lines <> [] -> Forall (fun l => one_line l = true) lines ->
  Py.split_on (ascii_of_nat 10) (Py.join nl lines) = lines.
Proof.
  induction lines as [|l [|l2 rest] IH]; intros Hne Hall; [done| |].
  - cbn [Py.join]. apply split_on_one_line. by inversion Hall.
  - change (Py.join nl (l :: l2 :: rest))
      with (l ++ nl ++ Py.join nl (l2 :: rest)).
    inversion Hall as [|? ? Hl Hrest]; subst.
    rewrite split_on_line_then by done. by rewrite IH.
Qed.

Lemma str_in_join p sep line lines :
  In line lines -> Py.str_in p line = true ->
  Py.str_in p (Py.join sep lines) = true.
Proof.
  intros Hin Hp. induction lines as [|l [|l2 rest] IH]; [done| |].
  - destruct Hin as [->|[]]. exact Hp.
  - change (Py.join sep (l :: l2 :: rest))
      with (l ++ sep ++ Py.join sep (l2 :: rest)).
    destruct Hin as [->|Hin].
    + by apply str_in_app_l.
    + apply str_in_app_r, str_in_app_r. by apply IH.
Qed.

(** The collecting loop on a reply made of text, a fence, a block and, if
    the block is closed, a second fence and more text. *)
Lemma collect_block_inside block tail :
  Forall (fun l => is_fence l = false) block ->
  (tail = [] \/ exists close post, tail = close :: post /\ is_fence close = true) ->
  collect_block true (block ++ tail) = block.
Proof.
  intros Hb Ht. induction Hb as [|l block Hl _ IH].
  - destruct Ht as [->|(close & post & -> & Hc)]; [done|].
    cbn. unfold is_fence in Hc. by rewrite Hc.
  - cbn [app collect_block]. unfold is_fence in Hl. rewrite Hl. by rewrite IH.
Qed.

Lemma collect_block_fenced text opening block tail :
  Forall (fun l => is_fence l = false) text ->
  is_fence opening = true ->
  Forall (fun l => is_fence l = false) block ->
  (tail = [] \/ exists close post, tail = close :: post /\ is_fence close = true) ->
  collect_block false (text ++ opening :: block ++ tail) = block.
Proof.
  intros Ht Ho Hb Htail. induction Ht as [|l text Hl _ IH].
  - cbn [app collect_block]. unfold is_fence in Ho. rewrite Ho.
    by apply collect_block_inside.
  - cbn [app collect_block]. unfold is_fence in Hl. by rewrite Hl.
Qed.

(** X8. A reply of ASCII text that holds a fenced block: whatever text comes
    before the first fence and after the closing one is dropped, the fence
    lines are dropped, and the lines of the block come back joined by
    newlines, exactly as they were. A block that is never closed runs to the
    end of the reply. *)
Theorem extract_returns_the_fenced_block
    (text : list string) (opening : string) (block tail : list string) :
  Forall (fun l => ascii_only l = true) (text ++ opening :: block ++ tail) ->
  Forall (fun l => one_line l = true) (text ++ opening :: block ++ tail) ->
  Forall (fun l => is_fence l = false) text ->
  is_fence opening = true ->
  Forall (fun l => is_fence l = false) block ->
  block <> [] ->
  (tail = [] \/ exists close post, tail = close :: post /\ is_fence close = true) ->
  extract_shader_code (Py.join nl (text ++ opening :: block ++ tail))
  = Py.join nl block.
Proof.
  intros _ Hlines Ht Ho Hb Hne Htail. unfold extract_shader_code.
  rewrite (str_in_join "```" nl opening).
  - rewrite split_on_join; [|by destruct text|exact Hlines].
    rewrite collect_block_fenced by done. by destruct block.
  - apply in_or_app. right. by left.
  - by apply str_in_strip.
Qed.

(** A reply in the usual shape: a sentence, a fenced block of three lines, a
    closing remark. *)
Definition fenced_reply_text : list string := ["Here is the shader:"].
Definition fenced_reply_block : list string :=
  [shader_decl_marker ++ "Custom/Unlit" ++ dquote; "{"; "}"].
Definition fenced_reply_tail : list string := ["```"; "Let me know."].

(** X8 at that reply. *)
Lemma extract_returns_the_fenced_block_witness :
  Forall (fun l => ascii_only l = true)
    (fenced_reply_text ++ "```hlsl" :: fenced_reply_block ++ fenced_reply_tail)
  /\ Forall (fun l => one_line l = true)
    (fenced_reply_text ++ "```hlsl" :: fenced_reply_block ++ fenced_reply_tail)
  /\ Forall (fun l => is_fence l = false) fenced_reply_text
  /\ is_fence "```hlsl" = true
  /\ Forall (fun l => is_fence l = false) fenced_reply_block
  /\ fenced_reply_block <> []
  /\ (fenced_reply_tail = []
      \/ exists close post,
           fenced_reply_tail = close :: post /\ is_fence close = true)
  /\ extract_shader_code
       (Py.join nl (fenced_reply_text ++ "```hlsl"
                      :: fenced_reply_block ++ fenced_reply_tail))
     = Py.join nl fenced_reply_block.
Proof.
  assert (H0 : Forall (fun l => ascii_only l = true)
                 (fenced_reply_text ++ "```hlsl"
                    :: fenced_reply_block ++ fenced_reply_tail))
    by (repeat constructor).
  assert (H1 : Forall (fun l => one_line l = true)
                 (fenced_reply_text ++ "```hlsl"
                    :: fenced_reply_block ++ fenced_reply_tail))
    by (repeat constructor).
  assert (H2 : Forall (fun l => is_fence l = false) fenced_reply_text)
    by (repeat constructor).
  assert (H3 : is_fence "```hlsl" = true) by reflexivity.
  assert (H4 : Forall (fun l => is_fence l = false) fenced_reply_block)
    by (repeat constructor).
  assert (H5 : fenced_reply_block <> []) by discriminate.
  assert (H6 : fenced_reply_tail = []
               \/ exists close post,
                    fenced_reply_tail = close :: post /\ is_fence close = true)
    by (right; by exists "```", ["Let me know."]).
  repeat (split; [assumption|]).
  exact (extract_returns_the_fenced_block fenced_reply_text "```hlsl"
           fenced_reply_block fenced_reply_tail H0 H1 H2 H3 H4 H5 H6).
Defined.

Lemma shader_decl_marker_kept rest :
  Py.strip (shader_decl_marker ++ rest) = shader_decl_marker ++ Py.rstrip rest.
Proof.
  unfold Py.strip.
  assert (Hl : Py.lstrip (shader_decl_marker ++ rest) = shader_decl_marker ++ rest)
    by reflexivity.
  rewrite Hl.
  change (shader_decl_marker ++ rest)
    with ("Shader " ++ String (ascii_of_nat 34) rest).
  rewrite rstrip_keeps by (vm_compute; (reflexivity || lia)). reflexivity.
Qed.

(** X9. A reply of ASCII text without a fence that holds a shader declaration:
    the answer is the reply from its first declaration on, without the text
    before it and without trailing white space; it starts with the
    declaration, so the first item of the validation checklist has nothing
    to report on it. *)
Theorem extract_starts_at_the_declaration (response : string) :
  ascii_only response = true ->
  Py.str_in "```" response = false ->
  Py.str_in shader_decl_marker response = true ->
  exists before rest,
    response = before ++ shader_decl_marker ++ rest
    /\ (forall a b, before = a ++ b -> b <> "" ->
        String.prefix shader_decl_marker (b ++ shader_decl_marker ++ rest)
        = false)
    /\ extract_shader_code response = shader_decl_marker ++ Py.rstrip rest
    /\ check_shader_decl (extract_shader_code response) = [].
Proof.
  intros _ Hfence Hdecl.
  destruct (from_first_some _ _ Hdecl) as [tail Htail].
  destruct (from_first_spec _ _ _ Htail) as (Hp & before & -> & Hfirst).
  destruct (prefix_split _ _ Hp) as [rest ->].
  exists before, rest. split; [done|]. split; [exact Hfirst|].
  assert (He : extract_shader_code (before ++ shader_decl_marker ++ rest)
               = shader_decl_marker ++ Py.rstrip rest).
  { unfold extract_shader_code. rewrite Hfence, Hdecl, Htail.
    cbn [orb]. apply shader_decl_marker_kept. }
  split; [exact He|]. rewrite He. apply check_shader_decl_nil.
  apply str_in_prefix, prefix_app.
Qed.

(** X9 at a reply that wraps [sample_shader] in a greeting and two
    spaces. *)
Lemma extract_starts_at_the_declaration_witness :
  ascii_only ("Sure. " ++ sample_shader ++ "  ") = true
  /\ Py.str_in "```" ("Sure. " ++ sample_shader ++ "  ") = false
  /\ Py.str_in shader_decl_marker ("Sure. " ++ sample_shader ++ "  ") = true
  /\ extract_shader_code ("Sure. " ++ sample_shader ++ "  ") = sample_shader.
Proof.
  split; [vm_compute; reflexivity|].
  split; [vm_compute; reflexivity|]. split; [vm_compute; reflexivity|].
  destruct (extract_starts_at_the_declaration
              ("Sure. " ++ sample_shader ++ "  ") eq_refl eq_refl eq_refl)
    as (before & rest & _ & _ & He & _).
  vm_compute. reflexivity.
Defined.

(** ** What the checklist tests *)

(** A text occurs in another: the other is some text, then the first, then
    some text. *)
Definition occurs (marker code : string) : Prop :=
  exists before after, code = before ++ marker ++ after.

Lemma str_in_occurs marker code :
  Py.str_in marker code = true <-> occurs marker code.
Proof.
  split.
  - intros H. destruct (from_first_some _ _ H) as [tail Htail].
    destruct (from_first_spec _ _ _ Htail) as (Hp & before & -> & _).
    destruct (prefix_split _ _ Hp) as [after ->].
    by exists before, after.
  - intros (before & after & ->).
    apply str_in_app_r, str_in_prefix, prefix_app.
Qed.

(** The claim's reading of two items, in the spec's words. The open and
    close block markers match: read from the left, every ENDHLSL closes an
    HLSLPROGRAM that is open, and none is left open at the end. *)
Fixpoint markers_match_from (open : nat) (code : string) : bool :=
  match code with
  | EmptyString => (open =? 0)%nat
  | String _ rest =>
      if String.prefix "HLSLPROGRAM" code then markers_match_from (S open) rest
      else if String.prefix "ENDHLSL" code then
             match open with
             | O => false
             | S n => markers_match_from n rest
             end
      else markers_match_from open rest
  end.

Definition block_markers_match (code : string) : bool :=
  markers_match_from 0 code.

(** A character of a word: a letter, a digit or an underscore. *)
Definition is_word_char (c : ascii) : bool :=
  let n := nat_of_ascii c in
  ((48 <=? n) && (n <=? 57) || (65 <=? n) && (n <=? 90)
   || (97 <=? n) && (n <=? 122) || (n =? 95))%nat.

(** The artifact holds a Shader declaration: the word Shader, not as the
    end of a longer word, followed by a space and a quotation mark. *)
Fixpoint declares_shader_from (in_word : bool) (code : string) : bool :=
  match code with
  | EmptyString => false
  | String c rest =>
      negb in_word && String.prefix shader_decl_marker code
      || declares_shader_from (is_word_char c) rest
  end.

Definition declares_shader (code : string) : bool :=
  declares_shader_from false code.

(** An artifact whose only quoted name follows the word SubShader and whose
    closing markers come before its opening ones. *)
Definition mismatched_shader : string :=
  "SubShader " ++ dquote ++ "x" ++ dquote
  ++ " { Pass { ENDHLSL ENDHLSL #pragma vertex vert"
  ++ " #pragma fragment frag #include " ++ dquote
  ++ "Packages/com.unity.render-pipelines.universal/ShaderLibrary/Core.hlsl"
  ++ dquote ++ " HLSLPROGRAM HLSLPROGRAM } }".

Lemma Forall2_items_markers code :
  Forall2 (fun item marker => item = [] <-> occurs marker code)
    [ check_shader_decl code;
      check_item "SubShader" "Missing SubShader block" code;
      check_item "Pass" "Missing Pass block" code;
      check_item "#pragma vertex" "Missing #pragma vertex directive" code;
      check_item "#pragma fragment" "Missing #pragma fragment directive" code;
      check_item "com.unity.render-pipelines"
        "Missing URP include (Packages/com.unity.render-pipelines.universal/...)"
        code;
      check_item "HLSLPROGRAM"
        "Missing HLSLPROGRAM block (using CGPROGRAM instead of HLSL?)" code;
      check_item "ENDHLSL" "Missing ENDHLSL" code ]
    checklist_markers.
Proof.
  unfold checklist_markers.
  repeat (apply Forall2_cons; split;
          [rewrite <- str_in_occurs;
           first [apply check_shader_decl_nil | apply check_item_nil]|]).
  apply Forall2_nil_2.
Qed.

(** C6. The verdict of the validation gate is pass if and only if its
    checklist yields no deficiency string. The checklist is the concatenation
    of eight items, each yielding no string or one, and each item is a test
    that a fixed marker occurs somewhere in the artifact: the marker of a
    Shader declaration, SubShader, Pass, the two pragma directives, the
    platform include marker, HLSLPROGRAM and ENDHLSL. An item yields no
    string exactly when its marker occurs, so the verdict is pass exactly when
    all eight markers occur; the open and close markers are tested for
    occurrence only. *)
Theorem C6_verdict_pass_iff_every_marker_occurs (state : ShaderGenState) :
  let code := or_empty (generated_code state) in
  let items :=
    [ check_shader_decl code;
      check_item "SubShader" "Missing SubShader block" code;
      check_item "Pass" "Missing Pass block" code;
      check_item "#pragma vertex" "Missing #pragma vertex directive" code;
      check_item "#pragma fragment" "Missing #pragma fragment directive" code;
      check_item "com.unity.render-pipelines"
        "Missing URP include (Packages/com.unity.render-pipelines.universal/...)"
        code;
      check_item "HLSLPROGRAM"
        "Missing HLSLPROGRAM block (using CGPROGRAM instead of HLSL?)" code;
      check_item "ENDHLSL" "Missing ENDHLSL" code ] in
  exists is_valid errs stage,
    validate_shader state =
      [ U_validation_passed is_valid; U_validation_errors errs;
        U_current_stage stage ]
    /\ errs = concat items
    /\ Forall (fun item => (length item <= 1)%nat) items
    /\ (is_valid = true <-> errs = [])
    /\ Forall2 (fun item marker => item = [] <-> occurs marker code)
         items checklist_markers
    /\ (is_valid = true
        <-> Forall (fun marker => occurs marker code) checklist_markers)
    /\ stage = (if is_valid then "validated" else "validation_failed").
Proof.
  intros code items.
  exists (verdict (generated_code state)), (deficiencies code),
    (if verdict (generated_code state) then "validated" else "validation_failed").
  split; [apply validate_shader_eq|].
  split.
  { unfold items, deficiencies. cbn [concat]. by rewrite app_nil_r. }
  split.
  { unfold items.
    repeat (apply Forall_cons; split;
            [first [apply check_shader_decl_length | apply check_item_length]|]).
    apply Forall_nil_2. }
  split; [apply verdict_true|].
  split; [apply Forall2_items_markers|].
  split; [|reflexivity].
  rewrite verdict_true. fold code. rewrite deficiencies_nil.
  rewrite forallb_forall, List.Forall_forall.
  split; intros H m Hm; apply str_in_occurs; by apply H.
Qed.

(** The claim as stated fails at [mismatched_shader]: the verdict is pass and
    the checklist yields no string, although the artifact holds no Shader
    declaration (its only marker is the end of the word SubShader) and its
    block markers do not match (both closing markers come first). *)
Lemma C6_counterexample :
  verdict mismatched_shader = true
  /\ deficiencies mismatched_shader = []
  /\ declares_shader mismatched_shader = false
  /\ block_markers_match mismatched_shader = false.
Proof. repeat split; vm_compute; reflexivity. Qed.

(** The fields of a task that [validate_shader] does not write. *)
Definition untouched_by_validation (s s' : ShaderGenState) : Prop :=
  user_requirement s' = user_requirement s
  /\ reference_image s' = reference_image s
  /\ image_analysis s' = image_analysis s
  /\ requirement_analysis s' = requirement_analysis s
  /\ generated_code s' = generated_code s
  /\ compile_result s' = compile_result s
  /\ retry_count s' = retry_count s
  /\ max_retries s' = max_retries s
  /\ error_history s' = error_history s
  /\ is_complete s' = is_complete s
  /\ error s' = error s.

(** C8. The validation gate is a deterministic function of the artifact
    alone: on two states that carry the same generated code, whatever their
    other fields, [validate_shader] returns the same verdict, the same
    deficiency list in the same order and the same stage tag. It writes
    nothing but its own three result fields of the task it is run on, and as
    a node of the graph it makes no generator call and no tool call. *)
Theorem C8_validate_shader_deterministic
    (generate : nat -> string)
    (on_tool_call : option (nat -> string -> Task.CompileResult))
    (s1 s2 : ShaderGenState) (r : bool) (k t : nat) :
  generated_code s1 = generated_code s2 ->
  validate_shader s1 = validate_shader s2
  /\ untouched_by_validation s1 (merge s1 (validate_shader s1))
  /\ exists l c',
       step generate on_tool_call (mkConfig (Invoke r N_validate) s1 k t)
         = Some (l, c')
       /\ l = Tau /\ llm_calls c' = k /\ tool_calls c' = t
       /\ st c' = merge s1 (validate_shader s1).
Proof.
  intros Hcode. split.
  { rewrite !validate_shader_eq. by rewrite Hcode. }
  split.
  { rewrite validate_shader_eq. by repeat split. }
  destruct r; unfold step; cbn [loc st llm_calls tool_calls node_fn next_node];
    destruct (check_should_compile _);
    eexists _, _; (split; [reflexivity|]); by repeat split.
Qed.

(** Two states that share the (empty) artifact and differ in requirement,
    retry ceiling and retry counter. *)
Definition task_a : ShaderGenState := initial_state "plain unlit" 3 None.
Definition task_b : ShaderGenState :=
  merge (initial_state "toon" 5 None) [U_retry_count 2].

(** C8 at [task_a] and [task_b]. *)
Lemma C8_validate_shader_deterministic_witness :
  generated_code task_a = generated_code task_b
  /\ (validate_shader task_a = validate_shader task_b
      /\ untouched_by_validation task_a (merge task_a (validate_shader task_a))
      /\ exists l c',
           step steady_generator failing_host
             (mkConfig (Invoke false N_validate) task_a 0 0) = Some (l, c')
           /\ l = Tau /\ llm_calls c' = 0%nat /\ tool_calls c' = 0%nat
           /\ st c' = merge task_a (validate_shader task_a)).
Proof.
  split; [reflexivity|].
  apply (C8_validate_shader_deterministic steady_generator failing_host
           task_a task_b false 0 0).
  reflexivity.
Defined.

(** C10. [validate_shader] is a total function of the state: on every state
    it returns a verdict, a deficiency list and a stage (it cannot raise); on
    the empty artifact the verdict is fail and the list holds exactly the
    eight deficiency strings of the checklist, one per item. *)
Theorem C10_validate_shader_total_and_empty (state : ShaderGenState) :
  (exists is_valid errs stage,
     validate_shader state =
       [ U_validation_passed is_valid; U_validation_errors errs;
         U_current_stage stage ])
  /\ validate_shader (merge state [U_generated_code ""]) =
       [ U_validation_passed false;
         U_validation_errors
           [ "Missing Shader declaration";
             "Missing SubShader block";
             "Missing Pass block";
             "Missing #pragma vertex directive";
             "Missing #pragma fragment directive";
             "Missing URP include (Packages/com.unity.render-pipelines.universal/...)";
             "Missing HLSLPROGRAM block (using CGPROGRAM instead of HLSL?)";
             "Missing ENDHLSL" ];
         U_current_stage "validation_failed" ]
  /\ length (deficiencies (or_empty "")) = 8%nat.
Proof.
  split; [by eexists _, _, _|]. split; reflexivity.
Qed.

(** ** Runs of the runner *)

Section Runs.

Variable generate : nat -> string.
Variable on_tool_call : option (nat -> string -> Task.CompileResult).

#[local] Abbreviation step1 := (step generate on_tool_call).
#[local] Abbreviation run := (steps generate on_tool_call).
#[local] Abbreviation Reach := (Reachable generate on_tool_call).

Lemma steps_S n c :
  run (S n) c = match step1 c with
                | Some (_, c') => run n c'
                | None => c
                end.
Proof. reflexivity. Qed.

Lemma steps_add n m c : run (n + m) c = run m (run n c).
Proof.
  revert c. induction n as [|n IH]; intros c; [reflexivity|].
  cbn [Nat.add]. rewrite !steps_S.
  destruct (step1 c) as [[l c']|] eqn:Hs; [apply IH|].
  clear IH. induction m as [|m IHm]; [reflexivity|].
  by rewrite steps_S, Hs.
Qed.

Lemma steps_returned n c : loc c = Returned -> run n c = c.
Proof.
  intros H. destruct n; [reflexivity|].
  rewrite steps_S. unfold step. by rewrite H.
Qed.

Lemma steps_reachable n c0 : Reach c0 (run n c0).
Proof.
  assert (G : forall n c, Reach c0 c -> Reach c0 (run n c)).
  { clear n. induction n as [|n IH]; intros c Hc; [exact Hc|].
    rewrite steps_S. destruct (step1 c) as [[l c']|] eqn:Hs; [|exact Hc].
    apply IH. by eapply reach_step. }
  apply G. constructor.
Qed.

(** *** Runs under the step limit *)

Variable recursion_limit : nat.

#[local] Abbreviation bstep := (bounded_step generate on_tool_call recursion_limit).
#[local] Abbreviation brun := (bounded_steps generate on_tool_call recursion_limit).
#[local] Abbreviation Running := (Run generate on_tool_call recursion_limit).

Lemma bounded_steps_S n b :
  brun (S n) b = match bstep b with
                 | Some (_, b') => brun n b'
                 | None => b
                 end.
Proof. reflexivity. Qed.

Lemma bounded_steps_add n m b : brun (n + m) b = brun m (brun n b).
Proof.
  revert b. induction n as [|n IH]; intros b; [reflexivity|].
  cbn [Nat.add]. rewrite !bounded_steps_S.
  destruct (bstep b) as [[l b']|] eqn:Hs; [apply IH|].
  clear IH. induction m as [|m IHm]; [reflexivity|].
  by rewrite bounded_steps_S, Hs.
Qed.


Lemma bounded_steps_run n b0 : Running b0 (brun n b0).
Proof.
  assert (G : forall n b, Running b0 b -> Running b0 (brun n b)).
  { clear n. induction n as [|n IH]; intros b Hb; [exact Hb|].
    rewrite bounded_steps_S. destruct (bstep b) as [[l b']|] eqn:Hs; [|exact Hb].
    apply IH. by eapply run_step. }
  apply G. constructor.
Qed.

(** A bounded step is a step of the runner, or the library's error, which
    leaves the configuration where it is. *)
Lemma bounded_step_cases b l b' :
  bstep b = Some (l, b') ->
  out_of_steps b = false
  /\ ((out_of_steps b' = false /\ step1 (config b) = Some (l, config b'))
      \/ (out_of_steps b' = true /\ l = Tau /\ config b' = config b
          /\ used b' = used b /\ (recursion_limit <= used b)%nat
          /\ exists r n, loc (config b) = Invoke r n /\ n <> END)).
Proof.
  unfold bounded_step. destruct (out_of_steps b); [discriminate|].
  intros H. split; [reflexivity|].
  destruct (loc (config b)) as [r n| |e] eqn:Hloc; try discriminate.
  destruct n.
  all: try (destruct (Nat.leb_spec recursion_limit (used b));
            [injection H as <- <-; right; repeat split; try done;
             exists r; eexists; split; [reflexivity|discriminate]|]).
  all: destruct (step1 (config b)) as [[l' c']|]; [|discriminate].
  all: injection H as <- <-; left; by split.
Qed.

(** The configurations of a bounded run are configurations of the runner. *)
Lemma run_reachable c0 b :
  Running (mkBounded 0 false c0) b -> Reach c0 (config b).
Proof.
  intros Hrun. induction Hrun as [|b l b' _ IH Hstep]; [constructor|].
  destruct (bounded_step_cases _ _ _ Hstep) as [_ [[_ Hs]|(_ & _ & -> & _)]].
  - by eapply reach_step.
  - exact IH.
Qed.

(** A node that has budget left runs as [step] says. *)
Lemma bounded_step_node u c r n l c' :
  loc c = Invoke r n -> n <> END -> (u < recursion_limit)%nat ->
  step1 c = Some (l, c') ->
  bstep (mkBounded u false c) = Some (l, mkBounded (S u) false c').
Proof.
  intros Hloc Hn Hu Hs. unfold bounded_step. cbn [out_of_steps config used].
  rewrite Hloc.
  destruct n; try (by destruct Hn);
    destruct (Nat.leb_spec recursion_limit u); try lia; by rewrite Hs.
Qed.

(** The end of an invocation costs nothing and opens a fresh budget. *)
Lemma bounded_step_end u c r l c' :
  loc c = Invoke r END -> step1 c = Some (l, c') ->
  bstep (mkBounded u false c) = Some (l, mkBounded 0 false c').
Proof.
  intros Hloc Hs. unfold bounded_step. cbn [out_of_steps config used].
  by rewrite Hloc, Hs.
Qed.

(** A node without budget left ends the run. *)
Lemma bounded_step_out u c r n :
  loc c = Invoke r n -> n <> END -> (recursion_limit <= u)%nat ->
  bstep (mkBounded u false c) = Some (Tau, mkBounded u true c).
Proof.
  intros Hloc Hn Hu. unfold bounded_step. cbn [out_of_steps config used].
  rewrite Hloc.
  destruct n; try (by destruct Hn);
    destruct (Nat.leb_spec recursion_limit u); try lia; reflexivity.
Qed.

End Runs.

(** Case analysis on the conditions a step depends on. *)
Ltac split_step H :=
  repeat match type of H with
    | context [if ?b then _ else _] =>
        destruct b eqn:?; cbn -[deficiencies extract_shader_code Z.add] in H
    | context [match ?x with Some _ => _ | None => _ end] =>
        destruct x eqn:?; cbn -[deficiencies extract_shader_code Z.add] in H
    | context [match ?x with [] => _ | _ :: _ => _ end] =>
        destruct x eqn:?; cbn -[deficiencies extract_shader_code Z.add] in H
    end.

Ltac unfold_nodes H :=
  unfold step, node_fn, analyze_image, analyze_requirement, generate_shader,
    fix_validation_errors, handle_compile_result, finalize_failure,
    finalize_success, prepare_retry, next_node, check_should_retry,
    check_should_compile, can_retry, compile_succeeded,
    CompileResult_success in H;
  cbn -[deficiencies extract_shader_code Z.add] in H.

(** ** The compile-retry nodes are never entered *)

(** The stages the nodes of a run set. *)
Definition live_stages : list string :=
  [ "init"; "no_image"; "image_analyzed"; "analyzed"; "generated";
    "validated"; "validation_failed"; "fixed" ].

(** What holds of every configuration of a run, with or without a tool
    host: the inputs of the task are the ones [run] stored; the retry
    counter is 0, the task is neither complete nor failed; no invocation
    stands at [compile_check], [retry], [success] or [fail], so no node or
    edge has raised; and the runner has returned only if it has no tool host
    to call. *)
Definition live_inv (requirement : string) (max : Z) (image : option string)
    (on_tool_call : option (nat -> string -> Task.CompileResult))
    (c : Config) : Prop :=
  let s := st c in
  user_requirement s = requirement
  /\ max_retries s = max
  /\ reference_image s = image
  /\ retry_count s = 0
  /\ is_complete s = false
  /\ error s = None
  /\ In (current_stage s) live_stages
  /\ match loc c with
     | Invoke _ n =>
         n <> N_compile_check /\ n <> N_retry /\ n <> N_success /\ n <> N_fail
     | Returned => on_tool_call = None
     | Raised _ => False
     end.

Section Live.

Variable generate : nat -> string.
Variable on_tool_call : option (nat -> string -> Task.CompileResult).

Lemma live_inv_step requirement max image c l c' :
  live_inv requirement max image on_tool_call c ->
  step generate on_tool_call c = Some (l, c') ->
  live_inv requirement max image on_tool_call c'.
Proof.
  destruct c as [l0 s k t].
  intros (Hreq & Hmax & Himg & Hcnt & Hc & He & Hst & Hloc) Hstep.
  cbn [loc st llm_calls tool_calls] in *.
  destruct l0 as [r n| |e]; [|discriminate|discriminate].
  destruct Hloc as (N1 & N2 & N3 & N4).
  destruct r, n; try congruence; unfold_nodes Hstep.
  all: split_step Hstep.
  all: inversion Hstep; subst; clear Hstep.
  all: unfold live_inv, check_has_image, live_stages;
    cbn -[Z.add deficiencies extract_shader_code] in *.
  all: repeat (split; [first [assumption | reflexivity | tauto]|]).
  all: try reflexivity; try congruence.
  all: try (repeat split; discriminate).
  all: destruct (truthy _); repeat split; discriminate.
Qed.

Lemma live_inv_initial requirement max image :
  live_inv requirement max image on_tool_call
    (initial_config requirement max image).
Proof.
  unfold live_inv, initial_config, check_has_image, live_stages. cbn.
  repeat (split; [first [reflexivity | tauto]|]).
  destruct (truthy image); repeat split; discriminate.
Qed.

Lemma live_inv_reachable requirement max image c :
  Reachable generate on_tool_call (initial_config requirement max image) c ->
  live_inv requirement max image on_tool_call c.
Proof.
  intros Hreach. induction Hreach as [|c l c' _ IH Hstep].
  - apply live_inv_initial.
  - by eapply live_inv_step.
Qed.

Lemma live_inv_run recursion_limit requirement max image b :
  Run generate on_tool_call recursion_limit
    (initial_run requirement max image) b ->
  live_inv requirement max image on_tool_call (config b).
Proof.
  intros H. apply live_inv_reachable.
  exact (run_reachable _ _ recursion_limit _ _ H).
Qed.

End Live.


(** ** The retry counter *)



(** A run of Scenario B under a step limit of 25: the generator always
    answers with [sample_shader], every compile reply is a failure, the
    ceiling is 3. *)
Definition scenario_b (n : nat) : Bounded :=
  bounded_steps steady_generator failing_host 25 n
    (initial_run "plain unlit" 3 None).



(** ** Validation before compilation *)

(** Away from the [validate] node, a task marked as validated carries an
    artifact that passes validation. *)
Definition validated_inv (c : Config) : Prop :=
  match loc c with
  | Invoke _ N_validate => True
  | _ => validation_passed (st c) = true ->
         verdict (generated_code (st c)) = true
  end.

(** What C7 says of one configuration of a run: a step that issues the
    compile request does so at the end of an invocation, for an artifact
    whose verdict is pass; and from a [validate] node whose artifact fails
    the gate a step can only lead to [fix] (or be cut by the step limit),
    without any request being sent. *)
Definition compile_gate_ok
    (generate : nat -> string)
    (on_tool_call : option (nat -> string -> Task.CompileResult))
    (recursion_limit : nat) (b : Bounded) : Prop :=
  let c := config b in
  (forall name code b',
     bounded_step generate on_tool_call recursion_limit b
     = Some (ToolCall name code, b') ->
     name = "compile_shader"
     /\ code = generated_code (st c)
     /\ verdict code = true
     /\ validation_passed (st c) = true
     /\ loc c = Invoke false END
     /\ tool_calls (config b') = S (tool_calls c))
  /\ (forall r, loc c = Invoke r N_validate ->
      verdict (generated_code (st c)) = false ->
      (out_of_steps b = false ->
       exists l b',
         bounded_step generate on_tool_call recursion_limit b = Some (l, b'))
      /\ forall l b',
           bounded_step generate on_tool_call recursion_limit b = Some (l, b') ->
           l = Tau
           /\ tool_calls (config b') = tool_calls c
           /\ generated_code (st (config b')) = generated_code (st c)
           /\ (out_of_steps b' = true
               \/ (loc (config b') = Invoke r N_fix
                   /\ validation_passed (st (config b')) = false))).

Section CompileGate.

Variable generate : nat -> string.
Variable on_tool_call : option (nat -> string -> Task.CompileResult).

Lemma validated_inv_step c l c' :
  validated_inv c -> step generate on_tool_call c = Some (l, c') ->
  validated_inv c'.
Proof.
  destruct c as [l0 s k t]. unfold validated_inv at 1.
  cbn [loc st llm_calls tool_calls]. intros Hinv Hstep.
  destruct l0 as [r n| |e]; [|discriminate|discriminate].
  destruct r, n; unfold_nodes Hstep.
  all: split_step Hstep.
  all: inversion Hstep; subst; clear Hstep.
  all: unfold validated_inv, check_has_image, verdict in *;
    cbn -[deficiencies extract_shader_code] in *.
  all: try exact I; try assumption; try discriminate.
  all: try (intros _; assumption).
  all: destruct (truthy (reference_image s)); assumption.
Qed.

Lemma validated_inv_reachable requirement max image c :
  Reachable generate on_tool_call (initial_config requirement max image) c ->
  validated_inv c.
Proof.
  intros Hreach. induction Hreach as [|c l c' _ IH Hstep].
  - unfold validated_inv, initial_config, check_has_image. cbn.
    destruct (truthy _); discriminate.
  - by eapply validated_inv_step.
Qed.

(** A step of the runner that sends the compile request. *)
Lemma tool_call_step c name code c' :
  validated_inv c ->
  step generate on_tool_call c = Some (ToolCall name code, c') ->
  name = "compile_shader"
  /\ code = generated_code (st c)
  /\ verdict code = true
  /\ validation_passed (st c) = true
  /\ loc c = Invoke false END
  /\ tool_calls c' = S (tool_calls c).
Proof.
  destruct c as [l0 s k t]. unfold validated_inv.
  cbn [loc st llm_calls tool_calls]. intros Hinv Hstep.
  destruct l0 as [r n| |e]; [|discriminate|discriminate].
  destruct r, n; unfold_nodes Hstep.
  all: split_step Hstep.
  all: inversion Hstep; subst; clear Hstep.
  cbn. apply andb_prop in Heqb as [Hv _].
  repeat split; try done. by apply Hinv.
Qed.

(** The step out of a [validate] node whose artifact fails. *)
Lemma failing_validate_step r s k t :
  verdict (generated_code s) = false ->
  exists s',
    step generate on_tool_call (mkConfig (Invoke r N_validate) s k t)
    = Some (Tau, mkConfig (Invoke r N_fix) s' k t)
    /\ validation_passed s' = false
    /\ generated_code s' = generated_code s
    /\ s' = merge s (validate_shader s).
Proof.
  intros Hv. unfold verdict in Hv. eexists. split.
  - destruct r; unfold step; cbn -[deficiencies]; rewrite Hv; reflexivity.
  - cbn -[deficiencies]. by rewrite Hv.
Qed.

Lemma validated_inv_gate recursion_limit b :
  validated_inv (config b) ->
  compile_gate_ok generate on_tool_call recursion_limit b.
Proof.
  intros Hinv. split.
  - intros name code b' Hstep.
    destruct (bounded_step_cases _ _ _ _ _ _ Hstep)
      as [_ [[_ Hs]|(_ & [=] & _)]].
    by apply tool_call_step.
  - intros r Hloc Hv. destruct b as [u o [l0 s k t]].
    cbn [config loc st llm_calls tool_calls] in *. subst l0.
    destruct (failing_validate_step r s k t Hv) as (s' & Hs & Hp & Hc & _).
    split.
    + intros Ho. cbn in Ho. subst o.
      destruct (Nat.leb_spec recursion_limit u).
      * eexists _, _. by eapply bounded_step_out.
      * eexists _, _. by eapply bounded_step_node.
    + intros l b' Hstep.
      destruct (bounded_step_cases _ _ _ _ _ _ Hstep)
        as [_ [[_ Hs']|(Ho & -> & Hcfg & _)]].
      * cbn [config] in Hs'. rewrite Hs in Hs'. injection Hs' as <- <-.
        repeat split; try done. right. by split.
      * rewrite Hcfg. repeat split; try done. by left.
Qed.

End CompileGate.

(** C7. In every configuration of every run of the workflow, under any step
    limit, the compile request is issued only for an artifact whose validation
    verdict is pass, at the end of the invocation that validated it; from a
    [validate] node whose verdict is fail a step leads to [fix] and nowhere
    else (the library's step limit may cut the run there), and no request is
    sent by it. *)
Theorem C7_compile_requested_only_after_pass
    (generate : nat -> string)
    (on_tool_call : option (nat -> string -> Task.CompileResult))
    (recursion_limit : nat)
    (requirement : string) (max : Z) (image : option string) (b : Bounded) :
  Run generate on_tool_call recursion_limit
    (initial_run requirement max image) b ->
  compile_gate_ok generate on_tool_call recursion_limit b.
Proof.
  intros Hrun. apply validated_inv_gate.
  eapply validated_inv_reachable.
  exact (run_reachable _ _ recursion_limit _ _ Hrun).
Qed.

(** C7 on Scenario B, where the second compile request is about to be
    sent. *)
Lemma C7_compile_requested_only_after_pass_witness :
  Run steady_generator failing_host 25
    (initial_run "plain unlit" 3 None) (scenario_b 11)
  /\ loc (config (scenario_b 11)) = Invoke false END
  /\ compile_gate_ok steady_generator failing_host 25 (scenario_b 11).
Proof.
  split; [apply bounded_steps_run|].
  split; [vm_compute; reflexivity|].
  apply (C7_compile_requested_only_after_pass steady_generator failing_host 25
           "plain unlit" 3 None (scenario_b 11)).
  apply bounded_steps_run.
Defined.

(** ** The runner without a tool host *)

(** Without a tool host nothing is ever requested, counted, completed or
    failed, the compile-retry nodes are never entered, and the runner returns
    only with an artifact marked as validated. *)
Definition no_host_inv (c : Config) : Prop :=
  let s := st c in
  tool_calls c = 0%nat /\ retry_count s = 0 /\ is_complete s = false
  /\ error s = None
  /\ (forall r n, loc c = Invoke r n ->
      r = false
      /\ n <> N_compile_check /\ n <> N_retry /\ n <> N_success /\ n <> N_fail)
  /\ (loc c = Returned -> validation_passed s = true).

Section NoHost.

Variable generate : nat -> string.

Lemma no_host_inv_step c l c' :
  no_host_inv c -> step generate None c = Some (l, c') -> no_host_inv c'.
Proof.
  destruct c as [l0 s k t]. intros (Ht & Hr & Hc & He & Hloc & Hret) Hstep.
  cbn [loc st llm_calls tool_calls] in *.
  destruct l0 as [r n| |e]; [|discriminate|discriminate].
  destruct (Hloc r n eq_refl) as (-> & N1 & N2 & N3 & N4). clear Hloc Hret.
  destruct n; try congruence; unfold_nodes Hstep.
  all: split_step Hstep.
  all: inversion Hstep; subst; clear Hstep.
  all: unfold no_host_inv, check_has_image; cbn -[deficiencies extract_shader_code Z.add].
  all: repeat split; try assumption; try discriminate; try congruence.
  all: try (intros r' n' [= <- <-]; repeat split; try discriminate;
            destruct (truthy _); discriminate).
  all: try (intros r' n' [= <- <-]; by repeat split).
  all: try (intros _; by apply andb_prop in Heqb as [? _]).
  all: match goal with
       | H : Invoke _ (if ?b then _ else _) = Invoke _ _ |- _ =>
           destruct b; injection H as <- <-; discriminate
       end.
Qed.

Lemma no_host_inv_reachable requirement max image c :
  Reachable generate None (initial_config requirement max image) c ->
  no_host_inv c.
Proof.
  intros Hreach. induction Hreach as [|c l c' _ IH Hstep].
  - unfold no_host_inv, initial_config, check_has_image. cbn.
    repeat split; try discriminate.
    all: match goal with
         | H : Invoke _ (if ?b then _ else _) = Invoke _ _ |- _ =>
             destruct b; injection H as <- <-; (reflexivity || discriminate)
         end.
  - by eapply no_host_inv_step.
Qed.

End NoHost.

(** X4. The runner without a tool host ([on_tool_call] is [None]): in every
    configuration of every run no compile request has been sent, the retry
    counter is 0, the task is neither complete nor failed, no compile-retry
    node is ever entered, and when the runner has returned the artifact it
    returns passes validation. *)
Theorem runner_without_host_never_completes
    (generate : nat -> string)
    (requirement : string) (max : Z) (image : option string) (c : Config) :
  Reachable generate None (initial_config requirement max image) c ->
  no_host_inv c
  /\ (loc c = Returned -> verdict (generated_code (st c)) = true).
Proof.
  intros Hreach.
  pose proof (no_host_inv_reachable generate _ _ _ _ Hreach) as Hinv.
  split; [exact Hinv|]. intros Hret.
  pose proof (validated_inv_reachable generate None _ _ _ _ Hreach) as Hv.
  unfold validated_inv in Hv. rewrite Hret in Hv. apply Hv.
  destruct Hinv as (_ & _ & _ & _ & _ & Hp). by apply Hp.
Qed.

(** X4 on a run that returns after four steps. *)
Lemma runner_without_host_never_completes_witness :
  Reachable steady_generator None (initial_config "plain unlit" 3 None)
    (steps steady_generator None 4 (initial_config "plain unlit" 3 None))
  /\ loc (steps steady_generator None 4 (initial_config "plain unlit" 3 None))
     = Returned
  /\ no_host_inv
       (steps steady_generator None 4 (initial_config "plain unlit" 3 None)).
Proof.
  split; [apply steps_reachable|]. split; [vm_compute; reflexivity|].
  apply (runner_without_host_never_completes steady_generator
           "plain unlit" 3 None).
  apply steps_reachable.
Defined.

(** ** The validation-fix loop under the step limit *)

Section FixLoop.

Variable generate : nat -> string.
Variable on_tool_call : option (nat -> string -> Task.CompileResult).
Variable recursion_limit : nat.

#[local] Abbreviation brun := (bounded_steps generate on_tool_call recursion_limit).

(** The step of the [fix] node: it asks the generator once and hands the
    artifact to [validate]. *)
Lemma fix_step r s k t :
  exists s',
    step generate on_tool_call (mkConfig (Invoke r N_fix) s k t)
    = Some (Tau, mkConfig (Invoke r N_validate) s' (S k) t)
    /\ generated_code s' = extract_shader_code (generate k)
    /\ retry_count s' = retry_count s /\ is_complete s' = is_complete s
    /\ error s' = error s /\ compile_result s' = compile_result s.
Proof. eexists. split; [by destruct r|]. by repeat split. Qed.

(** One turn of the loop from a failing [validate], with budget for two
    nodes: [fix] asks the generator once and hands its artifact back to
    [validate]; nothing else moves. *)
Lemma fix_turn u r s k t :
  verdict (generated_code s) = false ->
  (u + 2 <= recursion_limit)%nat ->
  exists s',
    brun 2 (mkBounded u false (mkConfig (Invoke r N_validate) s k t))
    = mkBounded (u + 2) false (mkConfig (Invoke r N_validate) s' (S k) t)
    /\ generated_code s' = extract_shader_code (generate k)
    /\ retry_count s' = retry_count s /\ is_complete s' = is_complete s
    /\ error s' = error s /\ compile_result s' = compile_result s.
Proof.
  intros Hv Hu.
  destruct (failing_validate_step generate on_tool_call r s k t Hv)
    as (s1 & H1 & _ & _ & Hs1).
  destruct (fix_step r s1 k t) as (s2 & H2 & C2 & R2 & I2 & E2 & P2).
  exists s2. split.
  - rewrite bounded_steps_S.
    erewrite bounded_step_node; [|reflexivity|discriminate|lia|exact H1].
    rewrite bounded_steps_S.
    erewrite bounded_step_node; [|reflexivity|discriminate|lia|exact H2].
    cbn [bounded_steps]. by replace (u + 2)%nat with (S (S u)) by lia.
  - subst s1. repeat split; try assumption.
    all: unfold verdict in Hv; cbn -[deficiencies] in *; by rewrite ?Hv in *.
Qed.

(** The step out of [validate] for an artifact that passes, with budget for
    one node. *)
Lemma validate_pass u r s k t :
  verdict (generated_code s) = true ->
  (u + 1 <= recursion_limit)%nat ->
  exists s',
    brun 1 (mkBounded u false (mkConfig (Invoke r N_validate) s k t))
    = mkBounded (u + 1) false (mkConfig (Invoke r END) s' k t)
    /\ generated_code s' = generated_code s
    /\ validation_passed s' = true /\ validation_errors s' = []
    /\ current_stage s' = "validated"
    /\ retry_count s' = retry_count s /\ is_complete s' = is_complete s
    /\ error s' = error s /\ compile_result s' = compile_result s.
Proof.
  intros Hv Hu. pose proof Hv as Hd. apply verdict_true in Hd.
  unfold verdict in Hv.
  assert (Hs : exists s',
             step generate on_tool_call (mkConfig (Invoke r N_validate) s k t)
             = Some (Tau, mkConfig (Invoke r END) s' k t)
             /\ s' = merge s (validate_shader s)).
  { eexists. split; [|reflexivity].
    destruct r; unfold step; cbn -[deficiencies]; rewrite Hv; reflexivity. }
  destruct Hs as (s' & Hs & ->). eexists. split.
  - rewrite bounded_steps_S.
    erewrite bounded_step_node; [|reflexivity|discriminate|lia|exact Hs].
    cbn [bounded_steps]. by replace (u + 1)%nat with (S u) by lia.
  - cbn -[deficiencies extract_shader_code]. rewrite ?Hv, ?Hd. by repeat split.
Qed.

Lemma fix_loop_exit r m : forall u s k t,
  verdict (generated_code s) = false ->
  (forall j, (j < m)%nat ->
     verdict (extract_shader_code (generate (k + j))) = false) ->
  verdict (extract_shader_code (generate (k + m))) = true ->
  (u + (2 * S m + 1) <= recursion_limit)%nat ->
  exists s',
    brun (2 * S m + 1)
      (mkBounded u false (mkConfig (Invoke r N_validate) s k t))
    = mkBounded (u + (2 * S m + 1)) false
        (mkConfig (Invoke r END) s' (S (k + m)) t)
    /\ generated_code s' = extract_shader_code (generate (k + m))
    /\ validation_passed s' = true /\ validation_errors s' = []
    /\ retry_count s' = retry_count s /\ is_complete s' = is_complete s
    /\ error s' = error s /\ compile_result s' = compile_result s.
Proof.
  induction m as [|m IH]; intros u s k t Hv Hfail Hpass Hu.
  - destruct (fix_turn u r s k t Hv ltac:(lia))
      as (s1 & H1 & C1 & R1 & I1 & E1 & P1).
    rewrite Nat.add_0_r in *.
    destruct (validate_pass (u + 2) r s1 (S k) t)
      as (s2 & H2 & C2 & V2 & L2 & _ & R2 & I2 & E2 & P2);
      [by rewrite C1|lia|].
    exists s2. change (2 * 1 + 1)%nat with (2 + 1)%nat.
    rewrite bounded_steps_add, H1, H2.
    replace (u + 2 + 1)%nat with (u + (2 + 1))%nat by lia.
    repeat split; congruence.
  - destruct (fix_turn u r s k t Hv ltac:(lia))
      as (s1 & H1 & C1 & R1 & I1 & E1 & P1).
    destruct (IH (u + 2)%nat s1 (S k) t)
      as (s2 & H2 & C2 & V2 & L2 & R2 & I2 & E2 & P2).
    + rewrite C1. specialize (Hfail 0%nat ltac:(lia)).
      by rewrite Nat.add_0_r in Hfail.
    + intros j Hj. specialize (Hfail (S j) ltac:(lia)).
      by replace (S k + j)%nat with (k + S j)%nat by lia.
    + by replace (S k + m)%nat with (k + S m)%nat by lia.
    + lia.
    + exists s2.
      replace (2 * S (S m) + 1)%nat with (2 + (2 * S m + 1))%nat by lia.
      rewrite bounded_steps_add, H1, H2.
      replace (S k + m)%nat with (k + S m)%nat in * by lia.
      replace (u + 2 + (2 * S m + 1))%nat
        with (u + (2 + (2 * S m + 1)))%nat by lia.
      repeat split; congruence.
Qed.

(** *** A generator whose artifacts never pass *)

Hypothesis never_passes :
  forall k, verdict (extract_shader_code (generate k)) = false.





End FixLoop.



(** X5. Leaving the validation-fix loop within the step limit. A task at
    [validate] whose artifact fails, followed by [m] generator replies whose
    artifacts fail and one whose artifact passes, runs [fix] exactly [m + 1]
    times and then leaves [validate] for the end of the invocation with the
    passing artifact marked as validated, provided the invocation has budget
    left for the [2 (m + 1) + 1] nodes this takes; meanwhile no compile
    request is sent and the retry counter, the completion flag, the error and
    the last compile result stay as they were. *)
Theorem fix_loop_exits_at_first_pass
    (generate : nat -> string)
    (on_tool_call : option (nat -> string -> Task.CompileResult))
    (recursion_limit : nat)
    (r : bool) (m u : nat) (s : ShaderGenState) (k t : nat) :
  verdict (generated_code s) = false ->
  (forall j, (j < m)%nat ->
     verdict (extract_shader_code (generate (k + j)%nat)) = false) ->
  verdict (extract_shader_code (generate (k + m)%nat)) = true ->
  (u + (2 * S m + 1) <= recursion_limit)%nat ->
  exists s',
    bounded_steps generate on_tool_call recursion_limit (2 * S m + 1)
      (mkBounded u false (mkConfig (Invoke r N_validate) s k t))
    = mkBounded (u + (2 * S m + 1)) false
        (mkConfig (Invoke r END) s' (S (k + m)) t)
    /\ generated_code s' = extract_shader_code (generate (k + m)%nat)
    /\ validation_passed s' = true /\ validation_errors s' = []
    /\ retry_count s' = retry_count s /\ is_complete s' = is_complete s
    /\ error s' = error s /\ compile_result s' = compile_result s.
Proof. apply fix_loop_exit. Qed.

(** A generator whose first two artifacts are empty and whose later ones are
    [sample_shader]. *)
Definition late_generator : nat -> string :=
  fun k => if (k <? 2)%nat then "" else sample_shader.

(** X5 with two failing repairs before the passing one, under a step limit
    of 25. *)
Lemma fix_loop_exits_at_first_pass_witness :
  verdict (generated_code (initial_state "plain unlit" 3 None)) = false
  /\ (forall j, (j < 2)%nat ->
        verdict (extract_shader_code (late_generator (0 + j)%nat)) = false)
  /\ verdict (extract_shader_code (late_generator (0 + 2)%nat)) = true
  /\ (2 + (2 * 3 + 1) <= 25)%nat
  /\ exists s',
       bounded_steps late_generator failing_host 25 (2 * 3 + 1)
         (mkBounded 2 false
            (mkConfig (Invoke false N_validate)
               (initial_state "plain unlit" 3 None) 0 0))
       = mkBounded (2 + (2 * 3 + 1)) false (mkConfig (Invoke false END) s' 3 0)
       /\ generated_code s' = sample_shader.
Proof.
  assert (H0 : verdict (generated_code (initial_state "plain unlit" 3 None))
               = false) by reflexivity.
  assert (H1 : forall j, (j < 2)%nat ->
                 verdict (extract_shader_code (late_generator (0 + j)%nat)) = false).
  { intros [|[|j]] Hj; [reflexivity|reflexivity|lia]. }
  assert (H2 : verdict (extract_shader_code (late_generator (0 + 2)%nat)) = true)
    by (vm_compute; reflexivity).
  assert (H3 : (2 + (2 * 3 + 1) <= 25)%nat) by lia.
  split; [exact H0|]. split; [exact H1|].
  split; [exact H2|]. split; [exact H3|].
  destruct (fix_loop_exits_at_first_pass late_generator failing_host 25 false 2
              2 (initial_state "plain unlit" 3 None) 0 0 H0 H1 H2 H3)
    as (s' & Hs & Hc & _).
  exists s'. split; [exact Hs|]. rewrite Hc. vm_compute. reflexivity.
Defined.

(** ** Scenario B: every compile reply is a failure *)

Section Invocations.

Variable generate : nat -> string.
Variable on_tool_call : option (nat -> string -> Task.CompileResult).
Variable recursion_limit : nat.

#[local] Abbreviation run := (steps generate on_tool_call).
#[local] Abbreviation brun := (bounded_steps generate on_tool_call recursion_limit).

(** Inside an invocation the runner always has a step to make. *)
Lemma step_invoke c r n :
  loc c = Invoke r n -> exists l c', step generate on_tool_call c = Some (l, c').
Proof.
  destruct c as [l0 s k t]. cbn [loc]. intros ->.
  destruct r, n; unfold step; cbn [loc st llm_calls tool_calls].
  all: repeat match goal with
         | |- context [match ?x with _ => _ end] => destruct x
         end.
  all: by eexists _, _.
Qed.

(** [n] nodes of one invocation run under the limit as they do without it,
    while the budget lasts. *)
Lemma bounded_nodes n : forall u c,
  (forall i, (i < n)%nat ->
     exists r node, loc (run i c) = Invoke r node /\ node <> END) ->
  (u + n <= recursion_limit)%nat ->
  brun n (mkBounded u false c) = mkBounded (u + n) false (run n c).
Proof.
  induction n as [|n IH]; intros u c Hnodes Hu.
  - cbn. f_equal. lia.
  - destruct (Hnodes 0%nat ltac:(lia)) as (r & node & Hloc & Hnode).
    cbn [steps] in Hloc.
    destruct (step_invoke c r node Hloc) as (l & c' & Hs).
    rewrite bounded_steps_S, steps_S, Hs.
    erewrite bounded_step_node; [|exact Hloc|exact Hnode|lia|exact Hs].
    rewrite IH; [f_equal; lia| |lia].
    intros i Hi. specialize (Hnodes (S i) ltac:(lia)).
    by rewrite steps_S, Hs in Hnodes.
Qed.

(** The step at the end of an invocation. *)
Lemma bounded_end u c r :
  loc c = Invoke r END ->
  brun 1 (mkBounded u false c) = mkBounded 0 false (run 1 c).
Proof.
  intros Hloc. destruct (step_invoke c r END Hloc) as (l & c' & Hs).
  rewrite bounded_steps_S, steps_S, Hs.
  erewrite bounded_step_end; [|exact Hloc|exact Hs]. reflexivity.
Qed.

End Invocations.

(** The task of Scenario B once the first failed reply is stored. *)
Definition scenario_b_state : ShaderGenState :=
  st (steps steady_generator failing_host 4
        (initial_config "plain unlit" 3 None)).

Section ScenarioB.

Variable recursion_limit : nat.
Hypothesis room_for_one_pass : (3 <= recursion_limit)%nat.

#[local] Abbreviation run_b :=
  (bounded_steps steady_generator failing_host recursion_limit).

(** The first four steps, and the eight steps from one stored reply to the
    next. *)
Lemma scenario_b_start :
  run_b 4 (initial_run "plain unlit" 3 None)
  = mkBounded 0 false
      (mkConfig (Invoke true N_analyze) scenario_b_state 2 1).
Proof.
  change 4%nat with (3 + 1)%nat. rewrite bounded_steps_add.
  unfold initial_run.
  rewrite bounded_nodes; [| |lia].
  - erewrite bounded_end; [|vm_compute; reflexivity].
    vm_compute. reflexivity.
  - intros [|[|[|i]]] Hi; try lia.
    + exists false, N_analyze. split; [vm_compute; reflexivity|discriminate].
    + exists false, N_generate. split; [vm_compute; reflexivity|discriminate].
    + exists false, N_validate. split; [vm_compute; reflexivity|discriminate].
Qed.

Lemma scenario_b_cycle k t :
  run_b 8 (mkBounded 0 false
             (mkConfig (Invoke true N_analyze) scenario_b_state k t))
  = mkBounded 0 false
      (mkConfig (Invoke true N_analyze) scenario_b_state (4 + k) (S t)).
Proof.
  change 8%nat with (3 + (1 + (3 + 1)))%nat. rewrite !bounded_steps_add.
  rewrite bounded_nodes; [| |lia].
  2:{ intros [|[|[|i]]] Hi; try lia.
      - exists true, N_analyze. split; [vm_compute; reflexivity|discriminate].
      - exists true, N_generate. split; [vm_compute; reflexivity|discriminate].
      - exists true, N_validate. split; [vm_compute; reflexivity|discriminate]. }
  erewrite bounded_end; [|vm_compute; reflexivity].
  rewrite <- steps_add.
  rewrite bounded_nodes; [| |lia].
  2:{ intros [|[|[|i]]] Hi; try lia.
      - exists false, N_analyze. split; [vm_compute; reflexivity|discriminate].
      - exists false, N_generate. split; [vm_compute; reflexivity|discriminate].
      - exists false, N_validate. split; [vm_compute; reflexivity|discriminate]. }
  erewrite bounded_end; [|vm_compute; reflexivity].
  rewrite <- !steps_add. vm_compute. reflexivity.
Qed.

Lemma scenario_b_requests j :
  run_b (4 + 8 * j) (initial_run "plain unlit" 3 None)
  = mkBounded 0 false
      (mkConfig (Invoke true N_analyze) scenario_b_state (2 + 4 * j) (S j)).
Proof.
  induction j as [|j IH].
  - apply scenario_b_start.
  - replace (4 + 8 * S j)%nat with ((4 + 8 * j) + 8)%nat by lia.
    rewrite bounded_steps_add, IH, scenario_b_cycle.
    do 2 f_equal. lia.
Qed.

End ScenarioB.

(** C2. Scenario B on the code, with ceiling 3, a generator whose artifact
    passes validation and a tool host whose every reply is a failure, under
    any step limit that leaves room for the three nodes of one pass. The run
    does not loop back through [retry] and does not fail: after each reply the
    runner invokes the graph from its entry point again, so after [4 + 8 j]
    steps the reply number [j + 1] is stored, the retry counter is still 0
    and the task is not complete; a fourth request, and any number of
    further ones, is sent. No configuration of the run stands at
    [compile_check] or [fail] and the run never returns. Were
    [compile_check] or [fail] entered in that state, they would raise: the
    first reads [compile_result.success], the second joins the error objects
    of the reply as strings. *)
Theorem C2_failed_replies_never_reach_fail (recursion_limit : nat) :
  (3 <= recursion_limit)%nat ->
  let run := bounded_steps steady_generator failing_host recursion_limit in
  let start := initial_run "plain unlit" 3 None in
  (forall j,
     run (4 + 8 * j)%nat start
     = mkBounded 0 false
         (mkConfig (Invoke true N_analyze) scenario_b_state
            (2 + 4 * j) (S j)))
  /\ compile_result scenario_b_state
     = Task.mkCompileResult Task.FAILED None
         [Task.mkCompileError 10 0 "syntax" "error"] []
  /\ retry_count scenario_b_state = 0
  /\ is_complete scenario_b_state = false
  /\ error scenario_b_state = None
  /\ (forall n,
        let c := config (run n start) in
        retry_count (st c) = 0 /\ is_complete (st c) = false
        /\ loc c <> Returned
        /\ forall r, loc c <> Invoke r N_compile_check
                     /\ loc c <> Invoke r N_retry
                     /\ loc c <> Invoke r N_fail)
  /\ (exists text,
        handle_compile_result scenario_b_state = Raise (AttributeError text))
  /\ (exists text,
        finalize_failure scenario_b_state = Raise (TypeError text)).
Proof.
  intros Hroom run start.
  split; [intros j; by apply scenario_b_requests|].
  split; [vm_compute; reflexivity|].
  split; [reflexivity|]. split; [reflexivity|]. split; [reflexivity|].
  split; [|split; eexists; reflexivity].
  intros n c.
  pose proof (bounded_steps_run steady_generator failing_host recursion_limit
                n start) as Hrun.
  destruct (live_inv_run _ _ _ _ _ _ _ Hrun)
    as (_ & _ & _ & Hcnt & Hi & _ & _ & Hloc).
  fold run in Hloc. fold c in Hloc.
  split; [exact Hcnt|]. split; [exact Hi|].
  destruct (loc c) as [r' n'| |e].
  - split; [discriminate|]. intros r.
    destruct Hloc as (N1 & N2 & _ & N4). repeat split; congruence.
  - discriminate.
  - destruct Hloc.
Qed.

(** C2 under a step limit of 25: after 28 steps the fourth compile request
    has been sent, and the counter is 0. *)
Lemma C2_failed_replies_never_reach_fail_witness :
  (3 <= 25)%nat
  /\ tool_calls (config (scenario_b 28)) = 4%nat
  /\ retry_count (st (config (scenario_b 28))) = 0
  /\ loc (config (scenario_b 28)) = Invoke true N_analyze.
Proof.
  assert (H : (3 <= 25)%nat) by lia. split; [exact H|].
  destruct (C2_failed_replies_never_reach_fail 25 H) as (Hreq & _).
  unfold scenario_b. change 28%nat with (4 + 8 * 3)%nat.
  rewrite (Hreq 3%nat). by repeat split.
Defined.

(** ** A run with a tool host *)



(** ** Pending callbacks *)

(** Two callbacks told apart by what they do with a reply. *)
Definition first_waiter : ToolCallback := fun _ => None.
Definition second_waiter : ToolCallback := fun _ => Some "second".
Definition first_confirmer : ConfirmCallback := fun _ _ => None.
Definition second_confirmer : ConfirmCallback := fun _ _ => Some "second".

(** A handler with one tool callback and one confirmation callback pending,
    both under the id 7. *)
Definition busy_handler : MessageHandler :=
  snd (register_confirm_callback 7%N first_confirmer
         (snd (register_tool_callback 7%N first_waiter new_handler))).

Lemma busy_handler_pending :
  _pending_tool_calls busy_handler !! 7%N = Some first_waiter
  /\ _pending_confirms busy_handler !! 7%N = Some first_confirmer.
Proof. split; apply lookup_insert_eq. Qed.

(** C4, as the code has it. Registering a callback for a correlation id
    (tool call or confirmation) never fails: it returns normally, writes no
    log record, and leaves the id bound to the new callback and every other
    id as it was. When the id was already registered the existing entry is
    replaced in place: the map keeps its size, so there is still at most one
    entry for the id, and the callback that was waiting is no longer
    reachable. *)
Theorem C4_register_replaces_existing_entry
    (self : MessageHandler) (k : UUID)
    (tool_callback : ToolCallback) (confirm_callback : ConfirmCallback) :
  (exists self',
     register_tool_callback k tool_callback self = (Ret tt, self')
     /\ _pending_tool_calls self' !! k = Some tool_callback
     /\ (forall j, j <> k ->
         _pending_tool_calls self' !! j = _pending_tool_calls self !! j)
     /\ (is_Some (_pending_tool_calls self !! k) ->
         size (_pending_tool_calls self') = size (_pending_tool_calls self))
     /\ _pending_confirms self' = _pending_confirms self
     /\ _handlers self' = _handlers self
     /\ logged self' = logged self
     /\ delivered self' = delivered self)
  /\ (exists self',
        register_confirm_callback k confirm_callback self = (Ret tt, self')
        /\ _pending_confirms self' !! k = Some confirm_callback
        /\ (forall j, j <> k ->
            _pending_confirms self' !! j = _pending_confirms self !! j)
        /\ (is_Some (_pending_confirms self !! k) ->
            size (_pending_confirms self') = size (_pending_confirms self))
        /\ _pending_tool_calls self' = _pending_tool_calls self
        /\ _handlers self' = _handlers self
        /\ logged self' = logged self
        /\ delivered self' = delivered self).
Proof.
  split; eexists; (split; [reflexivity|]); cbn.
  all: split; [apply lookup_insert_eq|].
  all: split; [intros j Hj; by apply lookup_insert_ne|].
  all: split; [intros [old Hold]; by eapply map_size_insert_Some|done].
Qed.

(** C4 as stated fails: on a handler where id 7 is already registered in
    both id spaces, a second registration under id 7 returns normally (no
    exception of any kind, so no duplicate-correlation error), logs nothing,
    and overwrites the entry: the id is now bound to the second callback and
    the first one is gone. *)
Lemma C4_counterexample :
  (_pending_tool_calls busy_handler !! 7%N = Some first_waiter
   /\ fst (register_tool_callback 7%N second_waiter busy_handler) = Ret tt
   /\ _pending_tool_calls
        (snd (register_tool_callback 7%N second_waiter busy_handler)) !! 7%N
      = Some second_waiter
   /\ logged (snd (register_tool_callback 7%N second_waiter busy_handler)) = []
   /\ second_waiter (mkToolPayload "7" []) <> first_waiter (mkToolPayload "7" []))
  /\ (_pending_confirms busy_handler !! 7%N = Some first_confirmer
      /\ fst (register_confirm_callback 7%N second_confirmer busy_handler) = Ret tt
      /\ _pending_confirms
           (snd (register_confirm_callback 7%N second_confirmer busy_handler))
           !! 7%N
         = Some second_confirmer
      /\ logged (snd (register_confirm_callback 7%N second_confirmer busy_handler))
         = []
      /\ second_confirmer true None <> first_confirmer true None).
Proof.
  destruct busy_handler_pending as [Ht Hc].
  split; (split; [assumption|]); (split; [reflexivity|]).
  all: split; [apply lookup_insert_eq|].
  all: split; [reflexivity|discriminate].
Qed.

(** ** What [handle_message] does with a frame *)

(** A handler with one more log record and nothing else changed. *)
Definition with_log (self : MessageHandler) (r : LogRecord) : MessageHandler :=
  mkHandler (_handlers self) (_pending_confirms self)
    (_pending_tool_calls self) (logged self ++ [r]) (delivered self).

(** A decoded value on which the test for a type member raises. *)
Definition scalar (data : json) : Prop :=
  match data with
  | JNull | JBool _ | JInt _ | JFloat _ => True
  | JStr _ | JArr _ | JObj _ => False
  end.

Section Replies.

Variable json_loads : string -> Validated json.
Variable BaseMessage_model_validate : json -> Validated BaseMessage.
Variable UserConfirmPayload_model_validate
  : list (string * json) -> Validated UserConfirmPayload.
Variable ToolResponsePayload_model_validate
  : list (string * json) -> Validated ToolResponsePayload.

#[local] Abbreviation handle :=
  (handle_message json_loads BaseMessage_model_validate
     UserConfirmPayload_model_validate ToolResponsePayload_model_validate).
#[local] Abbreviation parse :=
  (parse_message json_loads BaseMessage_model_validate).

(** The two error replies of [handle_message]. *)
Lemma handle_message_parse_error raw e raw' self :
  parse raw = Raise (MessageParseError e raw') ->
  exists m, handle raw self
            = (Ret (Some m),
               with_log self (log_error ("Failed to parse message: " ++ e)))
            /\ error_code m = Some "PARSE_ERROR".
Proof.
  intros Hp. eexists. unfold handle_message. rewrite Hp. split; reflexivity.
Qed.

Lemma handle_message_unknown_type raw m self :
  parse raw = Ret m ->
  MessageType_of_value (type m) = None ->
  exists r, handle raw self
            = (Ret (Some r),
               with_log self
                 (log_warning ("Unknown message type: " ++ type m)))
            /\ error_code r = Some "UNKNOWN_MESSAGE_TYPE".
Proof.
  intros Hp Ht. eexists. unfold handle_message. rewrite Hp, Ht.
  split; reflexivity.
Qed.

(** Text that is not JSON, and decoded JSON that is a container without a
    type member or fails the envelope's validation, are parse errors. *)
Lemma parse_message_rejects raw :
  (forall e, json_loads raw = Invalid e ->
     parse raw = Raise (MessageParseError ("Invalid JSON: " ++ e) raw))
  /\ (forall data, json_loads raw = Valid data -> py_in "type" data = Ret false ->
        parse raw = Raise (MessageParseError "Missing 'type' field" raw))
  /\ (forall data e, json_loads raw = Valid data -> py_in "type" data = Ret true ->
        BaseMessage_model_validate data = Invalid e ->
        parse raw
        = Raise (MessageParseError ("Invalid message structure: " ++ e) raw)).
Proof.
  unfold parse_message. repeat split.
  - by intros e ->.
  - by intros data -> ->.
  - by intros data e -> -> ->.
Qed.

(** A decoded value that is no container makes the membership test raise
    [TypeError], which neither [parse_message] nor [handle_message]
    catches. *)
Lemma handle_message_scalar raw data text self :
  json_loads raw = Valid data ->
  py_in "type" data = Raise (TypeError text) ->
  parse raw = Raise (TypeError text)
  /\ handle raw self = (Raise (TypeError text), self).
Proof.
  intros Hd He. unfold handle_message, parse_message.
  by rewrite Hd, He.
Qed.

(** A ping is answered with a pong. *)
Lemma handle_message_ping raw m self :
  parse raw = Ret m ->
  MessageType_of_value (type m) = Some PING ->
  handle raw self = (Ret (Some (mkMessage None "pong" None [])), self).
Proof. intros Hp Ht. unfold handle_message. by rewrite Hp, Ht. Qed.

(** A message of any other known type reaches the comparison with
    [MessageType.USER_CONFIRM], which raises; nothing catches it. *)
Lemma handle_message_known_type raw m t self :
  parse raw = Ret m ->
  MessageType_of_value (type m) = Some t ->
  t <> PING ->
  handle raw self = (Raise (AttributeError "USER_CONFIRM"), self).
Proof.
  intros Hp Ht Hping. unfold handle_message. rewrite Hp, Ht.
  by destruct t.
Qed.

(** [_handle_tool_response] on a payload that validates: the read of
    [payload.request_id] raises before the pending map is looked at. *)
Lemma handle_tool_response_raises m p self :
  ToolResponsePayload_model_validate (payload m) = Valid p ->
  _handle_tool_response ToolResponsePayload_model_validate m self
  = (Raise (AttributeError
              "'ToolResponsePayload' object has no attribute 'request_id'"),
     self).
Proof.
  intros Hp. unfold _handle_tool_response, validate_payload. by rewrite Hp.
Qed.

(** Every outcome of [handle_message]. *)
Lemma handle_message_cases raw self :
  (exists e m,
     handle raw self
     = (Ret (Some m),
        with_log self (log_error ("Failed to parse message: " ++ e)))
     /\ error_code m = Some "PARSE_ERROR")
  \/ (exists data text,
        json_loads raw = Valid data /\ scalar data
        /\ py_in "type" data = Raise (TypeError text)
        /\ handle raw self = (Raise (TypeError text), self))
  \/ (exists m r,
        parse raw = Ret m /\ MessageType_of_value (type m) = None
        /\ handle raw self
           = (Ret (Some r),
              with_log self (log_warning ("Unknown message type: " ++ type m)))
        /\ error_code r = Some "UNKNOWN_MESSAGE_TYPE")
  \/ (exists m,
        parse raw = Ret m /\ MessageType_of_value (type m) = Some PING
        /\ handle raw self
           = (Ret (Some (mkMessage None "pong" None [])), self))
  \/ (exists m t text,
        parse raw = Ret m /\ MessageType_of_value (type m) = Some t
        /\ t <> PING
        /\ handle raw self = (Raise (AttributeError text), self)).
Proof.
  destruct (parse raw) as [m|e] eqn:Hp.
  - destruct (MessageType_of_value (type m)) as [t|] eqn:Ht.
    + assert (Hping : t = PING \/ t <> PING)
        by (destruct t; first [by left | by right]).
      destruct Hping as [->|Hping].
      * do 3 right. left. exists m. repeat split; try done.
        by apply (handle_message_ping raw m self).
      * do 4 right. exists m, t. eexists. repeat split; try done.
        by apply (handle_message_known_type raw m t self).
    + do 2 right. left.
      destruct (handle_message_unknown_type raw m self Hp Ht) as (r & Hr & Hc).
      by exists m, r.
  - destruct e as [text raw'|text|text|text].
    + left. destruct (handle_message_parse_error raw text raw' self Hp)
        as (m & Hm & Hc).
      by exists text, m.
    + right. left. unfold parse_message in Hp.
      destruct (json_loads raw) as [data|err] eqn:Hd; [|discriminate].
      destruct (py_in "type" data) as [[|]|ex] eqn:Hin.
      * destruct (BaseMessage_model_validate data); discriminate.
      * discriminate.
      * injection Hp as ->. exists data, text.
        split; [reflexivity|].
        split; [destruct data; first [exact I | discriminate]|].
        split; [exact Hin|].
        by apply (handle_message_scalar raw data text self).
    + exfalso. unfold parse_message in Hp.
      destruct (json_loads raw) as [data|err]; [|discriminate].
      destruct (py_in "type" data) as [[|]|ex] eqn:Hin.
      * destruct (BaseMessage_model_validate data); discriminate.
      * discriminate.
      * injection Hp as ->. by destruct data.
    + exfalso. unfold parse_message in Hp.
      destruct (json_loads raw) as [data|err]; [|discriminate].
      destruct (py_in "type" data) as [[|]|ex] eqn:Hin.
      * destruct (BaseMessage_model_validate data); discriminate.
      * discriminate.
      * injection Hp as ->. by destruct data.
Qed.

End Replies.

(** ** Replies: tool responses and confirmation responses *)

(** C5 on the code. A frame that parses to a message of type TOOL_RESPONSE
    or CONFIRM_RESPONSE is not logged and dropped: whatever its correlation
    id, and whether or not a callback is pending, [handle_message] raises
    [AttributeError] at its comparison with [MessageType.USER_CONFIRM], a
    member that [MessageType] does not have. It writes no log record and
    changes nothing in the handler; in [_connection_handler] the exception
    ends the receive loop, so nothing is sent back and the frames that follow
    are never handled. Called on its own with a payload that validates,
    [_handle_tool_response] raises as well, at [payload.request_id]. *)
Theorem C5_reply_frames_raise_attribute_error
    (json_loads : string -> Validated json)
    (BaseMessage_model_validate : json -> Validated BaseMessage)
    (UserConfirmPayload_model_validate
       : list (string * json) -> Validated UserConfirmPayload)
    (ToolResponsePayload_model_validate
       : list (string * json) -> Validated ToolResponsePayload)
    (raw_data : string) (self : MessageHandler) (m : BaseMessage) :
  parse_message json_loads BaseMessage_model_validate raw_data = Ret m ->
  MessageType_of_value (type m) = Some TOOL_RESPONSE
  \/ MessageType_of_value (type m) = Some CONFIRM_RESPONSE ->
  exists text,
    handle_message json_loads BaseMessage_model_validate
      UserConfirmPayload_model_validate ToolResponsePayload_model_validate
      raw_data self = (Raise (AttributeError text), self)
    /\ (forall rest,
          let after := _connection_handler json_loads BaseMessage_model_validate
                         UserConfirmPayload_model_validate
                         ToolResponsePayload_model_validate
                         (raw_data :: rest) self in
          sent (fst after) = [] /\ unhandled (fst after) = rest
          /\ ended_by_exception (fst after) = Some (AttributeError text)
          /\ _pending_tool_calls (snd after) = _pending_tool_calls self
          /\ _pending_confirms (snd after) = _pending_confirms self
          /\ delivered (snd after) = delivered self)
    /\ (forall p,
          ToolResponsePayload_model_validate (payload m) = Valid p ->
          exists text',
            _handle_tool_response ToolResponsePayload_model_validate m self
            = (Raise (AttributeError text'), self)).
Proof.
  intros Hparse Htype.
  assert (H : handle_message json_loads BaseMessage_model_validate
                UserConfirmPayload_model_validate
                ToolResponsePayload_model_validate raw_data self
              = (Raise (AttributeError "USER_CONFIRM"), self)).
  { destruct Htype as [Ht|Ht];
      eapply handle_message_known_type; eauto; discriminate. }
  exists "USER_CONFIRM". split; [exact H|]. split.
  - intros rest after. unfold after. cbn [_connection_handler]. rewrite H.
    by repeat split.
  - intros p Hp. eexists. exact (handle_tool_response_raises _ m p self Hp).
Qed.

(** Library calls for a late tool reply: the frame decodes to an envelope of
    type TOOL_RESPONSE whose payload names request 9. *)
Definition late_loads : string -> Validated json :=
  fun _ => Valid (JObj [("type", JStr "TOOL_RESPONSE");
                        ("payload", JObj [("tool_call_id", JStr "9")])]).
Definition late_envelope : json -> Validated BaseMessage :=
  fun _ => Valid (mkMessage None "TOOL_RESPONSE" None
                    [("tool_call_id", JStr "9")]).
Definition late_tool_payload : list (string * json) -> Validated ToolResponsePayload :=
  fun _ => Valid (mkToolPayload "9" []).
Definition no_confirm_payload : list (string * json) -> Validated UserConfirmPayload :=
  fun _ => Invalid "confirm_id: Field required".

(** C5 on a reply for tool call 9 while a callback is pending under the
    id 7: the frame raises, and a ping that follows it is never answered. *)
Lemma C5_reply_frames_raise_attribute_error_witness :
  parse_message late_loads late_envelope "late reply"
  = Ret (mkMessage None "TOOL_RESPONSE" None [("tool_call_id", JStr "9")])
  /\ exists text,
       handle_message late_loads late_envelope no_confirm_payload
         late_tool_payload "late reply" busy_handler
       = (Raise (AttributeError text), busy_handler)
       /\ unhandled (fst (_connection_handler late_loads late_envelope
                            no_confirm_payload late_tool_payload
                            ["late reply"; "ping"] busy_handler))
          = ["ping"].
Proof.
  assert (Hp : parse_message late_loads late_envelope "late reply"
               = Ret (mkMessage None "TOOL_RESPONSE" None
                        [("tool_call_id", JStr "9")])) by reflexivity.
  split; [exact Hp|].
  destruct (C5_reply_frames_raise_attribute_error late_loads late_envelope
              no_confirm_payload late_tool_payload "late reply" busy_handler
              _ Hp (or_introl eq_refl)) as (text & Hh & Hconn & _).
  exists text. split; [exact Hh|]. by destruct (Hconn ["ping"]) as (_ & Hu & _).
Defined.

(** ** Frames that decode to a scalar *)

(** C9 at the frame 123. The text is valid JSON and decodes to the integer
    123; the test for a type member then raises [TypeError], which
    [parse_message] does not turn into a parse error and [handle_message]
    does not catch: the handler raises instead of answering PARSE_ERROR. In
    [_connection_handler] the exception ends the receive loop: nothing is
    sent back and the frames that follow are never handled. *)
Theorem C9_scalar_frame_raises_type_error
    (json_loads : string -> Validated json)
    (BaseMessage_model_validate : json -> Validated BaseMessage)
    (UserConfirmPayload_model_validate
       : list (string * json) -> Validated UserConfirmPayload)
    (ToolResponsePayload_model_validate
       : list (string * json) -> Validated ToolResponsePayload)
    (self : MessageHandler) (rest : list string) :
  json_loads "123" = Valid (JInt 123) ->
  let oops := TypeError "argument of type 'int' is not iterable" in
  handle_message json_loads BaseMessage_model_validate
    UserConfirmPayload_model_validate ToolResponsePayload_model_validate
    "123" self = (Raise oops, self)
  /\ (forall m, fst (handle_message json_loads BaseMessage_model_validate
                       UserConfirmPayload_model_validate
                       ToolResponsePayload_model_validate "123" self)
                <> Ret (Some m))
  /\ let conn := fst (_connection_handler json_loads BaseMessage_model_validate
                        UserConfirmPayload_model_validate
                        ToolResponsePayload_model_validate
                        ("123" :: rest) self) in
     sent conn = [] /\ unhandled conn = rest
     /\ ended_by_exception conn = Some oops.
Proof.
  intros Hd oops.
  destruct (handle_message_scalar json_loads BaseMessage_model_validate
              UserConfirmPayload_model_validate
              ToolResponsePayload_model_validate "123" (JInt 123)
              "argument of type 'int' is not iterable" self Hd eq_refl)
    as [_ Hh].
  split; [exact Hh|]. split.
  - intros m. rewrite Hh. discriminate.
  - cbn [_connection_handler]. rewrite Hh. by repeat split.
Qed.

(** A decoder that reads the frame 123 as [json.loads] does. *)
Definition scalar_loads : string -> Validated json :=
  fun raw => if String.eqb raw "123" then Valid (JInt 123)
             else Invalid "Expecting value".

(** C9 at the frame 123, followed by a ping that is never answered. *)
Lemma C9_scalar_frame_raises_type_error_witness :
  scalar_loads "123" = Valid (JInt 123)
  /\ handle_message scalar_loads late_envelope no_confirm_payload
       late_tool_payload "123" new_handler
     = (Raise (TypeError "argument of type 'int' is not iterable"), new_handler)
  /\ unhandled (fst (_connection_handler scalar_loads late_envelope
                       no_confirm_payload late_tool_payload
                       ["123"; "ping"] new_handler)) = ["ping"].
Proof.
  split; [reflexivity|].
  destruct (C9_scalar_frame_raises_type_error scalar_loads late_envelope
              no_confirm_payload late_tool_payload new_handler ["ping"]
              eq_refl) as (Hh & _ & _ & Hu & _).
  split; [exact Hh|exact Hu].
Defined.

(** ** What [handle_message] never does *)

(** A handler with other tables and the same log and deliveries. *)
Definition with_tables (table : gmap MessageType Handler)
    (confirms : gmap UUID ConfirmCallback) (tool_calls : gmap UUID ToolCallback)
    (self : MessageHandler) : MessageHandler :=
  mkHandler table confirms tool_calls (logged self) (delivered self).

Section HandlerFacts.

Variable json_loads : string -> Validated json.
Variable BaseMessage_model_validate : json -> Validated BaseMessage.
Variable UserConfirmPayload_model_validate
  : list (string * json) -> Validated UserConfirmPayload.
Variable ToolResponsePayload_model_validate
  : list (string * json) -> Validated ToolResponsePayload.

#[local] Abbreviation handle' :=
  (handle_message json_loads BaseMessage_model_validate
     UserConfirmPayload_model_validate ToolResponsePayload_model_validate).
#[local] Abbreviation parse' :=
  (parse_message json_loads BaseMessage_model_validate).

(** X10. [handle_message] touches nothing but the log. Whatever the frame,
    the handler table, both pending maps and the record of delivered replies
    are after the call what they were before it, and the log has gained at
    most one record. The outcome does not depend on the tables either: with
    any handler table and any pending maps in place of the handler's own, the
    call returns or raises the same. So no registered handler and no pending
    callback is ever called by [handle_message]. *)
Theorem handle_message_touches_only_the_log raw self :
  let after := snd (handle' raw self) in
  _handlers after = _handlers self
  /\ _pending_tool_calls after = _pending_tool_calls self
  /\ _pending_confirms after = _pending_confirms self
  /\ delivered after = delivered self
  /\ (logged after = logged self
      \/ exists record, logged after = (logged self ++ [record])%list)
  /\ forall table confirms tool_calls,
       fst (handle' raw (with_tables table confirms tool_calls self))
       = fst (handle' raw self).
Proof.
  intros after. unfold after.
  assert (Hcases := fun s => handle_message_cases json_loads
                     BaseMessage_model_validate
                     UserConfirmPayload_model_validate
                     ToolResponsePayload_model_validate raw s).
  split; [|split; [|split; [|split; [|split]]]].
  1-5: destruct (Hcases self)
         as [(e & m & -> & _)|[(data & text & _ & _ & _ & ->)
            |[(m & r & _ & _ & -> & _)|[(m & _ & _ & ->)
            |(m & t & text & _ & _ & _ & ->)]]]]; cbn; try done;
         first [by left | right; by eexists].
  intros table confirms tool_calls.
  unfold handle_message.
  destruct (parse' raw) as [m|[e raw'|e|e|e]]; try reflexivity.
  destruct (MessageType_of_value (type m)) as [[]|]; reflexivity.
Qed.


End HandlerFacts.

(** * The task record's own methods (graphs/shader_gen/state.py) *)

(** X17. The retry counter of the task record counts the calls of
    [increment_retry] and nothing else: after any sequence of
    [increment_retry], [reset_for_retry] and compile-result assignments, the
    counter has grown by the number of [increment_retry] calls, the ceiling is
    what it was, the error history has kept its earlier entries in place and
    gained at most one entry per [increment_retry], and [can_retry] holds
    exactly when the grown counter is still below the ceiling. *)
Theorem retry_counter_counts_increments
    (self : Task.ShaderGenState) (cs : list Task.Call) :
  let self' := Task.calls self cs in
  Task.retry_count self'
  = Task.retry_count self + Z.of_nat (Task.increments cs)
  /\ Task.max_retries self' = Task.max_retries self
  /\ (exists more,
        Task.error_history self' = (Task.error_history self ++ more)%list
        /\ (length more <= Task.increments cs)%nat)
  /\ (Task.can_retry self' = true
      <-> Task.retry_count self + Z.of_nat (Task.increments cs)
          < Task.max_retries self).
Proof.
  cbn zeta. revert self.
  induction cs as [|c cs IH]; intros self.
  - cbn. rewrite Z.add_0_r. repeat split; try done.
    + exists []. by rewrite app_nil_r.
    + unfold Task.can_retry. intros H. by apply Z.ltb_lt.
    + unfold Task.can_retry. intros H. by apply Z.ltb_lt.
  - unfold Task.calls in *. cbn [fold_left].
    destruct (IH (Task.call self c)) as (Hc & Hm & (more & Hh & Hl) & Hr).
    assert (Hstep :
              Task.retry_count (Task.call self c)
                + Z.of_nat (Task.increments cs)
              = Task.retry_count self + Z.of_nat (Task.increments (c :: cs))
              /\ Task.max_retries (Task.call self c) = Task.max_retries self
              /\ exists one,
                   Task.error_history (Task.call self c)
                   = (Task.error_history self ++ one)%list
                   /\ (length one + Task.increments cs
                       <= Task.increments (c :: cs))%nat).
    { unfold Task.increments. destruct c; cbn.
      - split; [lia|]. split; [reflexivity|].
        destruct (Task.errors (Task.compile_result self)).
        + exists []. rewrite app_nil_r. split; [reflexivity|cbn; lia].
        + eexists. split; [reflexivity|cbn; lia].
      - split; [lia|]. split; [reflexivity|].
        exists []. rewrite app_nil_r. split; [reflexivity|cbn; lia].
      - split; [lia|]. split; [reflexivity|].
        exists []. rewrite app_nil_r. split; [reflexivity|cbn; lia]. }
    destruct Hstep as (Hc' & Hm' & one & Hone & Hlen).
    split; [by rewrite Hc, Hc'|]. split; [by rewrite Hm, Hm'|].
    split.
    + exists (one ++ more)%list. rewrite Hh, Hone, <- app_assoc.
      split; [reflexivity|]. rewrite length_app. lia.
    + by rewrite Hr, Hc', Hm'.
Qed.

(** X18. The order of the two methods matters. On a task whose compile
    result holds errors, [increment_retry] followed by [reset_for_retry]
    records the attempt in the error history (one entry, numbered with the
    incremented counter, the error messages joined by a semicolon and a
    space); [reset_for_retry] first discards the compile result, so the
    [increment_retry] that follows counts the attempt and records nothing.
    Both orders leave the same counter, an empty artifact and a compile
    result that reports no failure. *)
Theorem errors_are_recorded_only_before_reset (self : Task.ShaderGenState) :
  Task.errors (Task.compile_result self) <> [] ->
  let counted := Task.reset_for_retry (Task.increment_retry self) in
  let lost := Task.increment_retry (Task.reset_for_retry self) in
  Task.error_history counted
  = (Task.error_history self
       ++ [Task.attempt_entry (Task.retry_count self + 1)
             (Task.errors (Task.compile_result self))])%list
  /\ Task.error_history lost = Task.error_history self
  /\ Task.retry_count counted = Task.retry_count self + 1
  /\ Task.retry_count lost = Task.retry_count self + 1
  /\ Task.generated_code counted = "" /\ Task.generated_code lost = ""
  /\ Task.has_compile_errors counted = false
  /\ Task.has_compile_errors lost = false.
Proof.
  intros Herr counted lost. unfold counted, lost.
  destruct self as [code [st sid errs warns] mid shot count ceiling history].
  cbn in *. destruct errs as [|e errs]; [done|]. by repeat split.
Qed.

(** A task whose second attempt failed with two errors. *)
Definition failed_attempt : Task.ShaderGenState :=
  Task.mkState "Shader" 
    (Task.mkCompileResult Task.FAILED None
       [Task.mkCompileError 10 0 "syntax error" "error";
        Task.mkCompileError 12 4 "undeclared identifier" "error"] [])
    None None 1 3 ["Attempt 1: syntax error"].

(** X18 at [failed_attempt]. *)
Lemma errors_are_recorded_only_before_reset_witness :
  Task.errors (Task.compile_result failed_attempt) <> []
  /\ Task.error_history
       (Task.reset_for_retry (Task.increment_retry failed_attempt))
     = ["Attempt 1: syntax error";
        "Attempt 2: syntax error; undeclared identifier"]
  /\ Task.error_history
       (Task.increment_retry (Task.reset_for_retry failed_attempt))
     = ["Attempt 1: syntax error"].
Proof.
  assert (H : Task.errors (Task.compile_result failed_attempt) <> [])
    by discriminate.
  split; [exact H|].
  destruct (errors_are_recorded_only_before_reset failed_attempt H)
    as (Hc & Hl & _).
  split; [rewrite Hc; vm_compute; reflexivity|exact Hl].
Defined.

(** * The connection manager (server/websocket_server.py) *)

(** A connection is the protocol object of a websocket, a dictionary key by
    identity; it is named here by a number. *)
Definition WebSocket := N.

Section Manager.

(** The manager reads one attribute of a session, its [session_id]. *)
Context {SessionState : Type} (session_id : SessionState -> UUID).

(** [ConnectionManager]: its two dictionaries. Its log lines are left
    out. *)
Record ConnectionManager := mkManager {
  connections : gmap WebSocket (option SessionState);
  sessions : gmap UUID SessionState
}.

(** [ConnectionManager.__init__]. *)
Definition new_manager : ConnectionManager := mkManager ∅ ∅.

(** [ConnectionManager.add_connection]. *)
Definition add_connection (websocket : WebSocket) (self : ConnectionManager)
  : ConnectionManager :=
  mkManager (<[websocket := None]> (connections self)) (sessions self).

(** [ConnectionManager.remove_connection]. *)
Definition remove_connection (websocket : WebSocket) (self : ConnectionManager)
  : ConnectionManager :=
  mkManager (delete websocket (connections self)) (sessions self).

(** [ConnectionManager.get_session]: [self.connections.get(websocket)]. *)
Definition get_session (websocket : WebSocket) (self : ConnectionManager)
  : option SessionState :=
  match connections self !! websocket with
  | Some session => session
  | None => None
  end.

(** [ConnectionManager.set_session]. *)
Definition set_session (websocket : WebSocket) (session : SessionState)
    (self : ConnectionManager) : ConnectionManager :=
  mkManager (<[websocket := Some session]> (connections self))
    (<[session_id session := session]> (sessions self)).

(** [ConnectionManager.get_session_by_id]. *)
Definition get_session_by_id (id : UUID) (self : ConnectionManager)
  : option SessionState :=
  sessions self !! id.

(** The calls that change a manager. *)
Inductive ManagerCall :=
| AddConnection (websocket : WebSocket)
| RemoveConnection (websocket : WebSocket)
| SetSession (websocket : WebSocket) (session : SessionState).

Definition manager_call (self : ConnectionManager) (c : ManagerCall)
  : ConnectionManager :=
  match c with
  | AddConnection ws => add_connection ws self
  | RemoveConnection ws => remove_connection ws self
  | SetSession ws s => set_session ws s self
  end.

Definition manager_calls (self : ConnectionManager) (cs : list ManagerCall)
  : ConnectionManager :=
  fold_left manager_call cs self.

(** Every session of the manager is filed under its own id, and the session
    of a connection is filed. *)
Definition filed (self : ConnectionManager) : Prop :=
  (forall id s, get_session_by_id id self = Some s -> session_id s = id)
  /\ (forall ws s, get_session ws self = Some s ->
        is_Some (get_session_by_id (session_id s) self)).

Lemma filed_call self c : filed self -> filed (manager_call self c).
Proof.
  intros [Hid Hws]. destruct c as [ws|ws|ws s]; split; cbn.
  - exact Hid.
  - intros ws' s. unfold get_session, add_connection. cbn.
    destruct (decide (ws' = ws)) as [->|Hne].
    + by rewrite lookup_insert_eq.
    + rewrite lookup_insert_ne by done. apply Hws.
  - exact Hid.
  - intros ws' s. unfold get_session, remove_connection. cbn.
    destruct (decide (ws' = ws)) as [->|Hne].
    + by rewrite lookup_delete_eq.
    + rewrite lookup_delete_ne by done. apply Hws.
  - intros id s'. unfold get_session_by_id, set_session. cbn.
    destruct (decide (id = session_id s)) as [->|Hne].
    + rewrite lookup_insert_eq. by intros [= <-].
    + rewrite lookup_insert_ne by done. apply Hid.
  - intros ws' s'. unfold get_session, get_session_by_id, set_session. cbn.
    destruct (decide (ws' = ws)) as [->|Hne].
    + rewrite lookup_insert_eq. intros [= <-]. by rewrite lookup_insert_eq.
    + rewrite lookup_insert_ne by done. intros H.
      destruct (decide (session_id s' = session_id s)) as [->|Hne'].
      * by rewrite lookup_insert_eq.
      * rewrite lookup_insert_ne by done. by apply (Hws ws').
Qed.

Lemma kept_call self c id :
  is_Some (get_session_by_id id self) ->
  is_Some (get_session_by_id id (manager_call self c)).
Proof.
  destruct c as [ws|ws|ws s]; cbn; try done.
  unfold get_session_by_id, set_session. cbn.
  destruct (decide (id = session_id s)) as [->|Hne].
  - by rewrite lookup_insert_eq.
  - by rewrite lookup_insert_ne.
Qed.

(** X19. Sessions outlive their connections. Whatever calls are made on
    a manager, a session id that is filed stays filed: no method removes an
    entry of [sessions], so closing a connection (or connecting again,
    which resets the connection's own entry) leaves the session to be found by
    [get_session_by_id]. Filing is also kept consistent: every session is
    filed under its own id, and the session of a connection is filed. After
    [set_session] followed by [remove_connection], the connection has no
    session and the session is still found by its id. *)
Theorem sessions_outlive_connections
    (self : ConnectionManager) (cs : list ManagerCall) :
  (forall id, is_Some (get_session_by_id id self) ->
     is_Some (get_session_by_id id (manager_calls self cs)))
  /\ (filed self -> filed (manager_calls self cs))
  /\ (forall ws s,
        let closed := remove_connection ws (set_session ws s self) in
        get_session ws closed = None
        /\ get_session_by_id (session_id s) closed = Some s).
Proof.
  split; [|split].
  - revert self. induction cs as [|c cs IH]; intros self id H; [exact H|].
    cbn. apply IH. by apply kept_call.
  - revert self. induction cs as [|c cs IH]; intros self H; [exact H|].
    cbn. apply IH. by apply filed_call.
  - intros ws s. cbn. unfold get_session, get_session_by_id. cbn.
    by rewrite lookup_delete_eq, lookup_insert_eq.
Qed.

End Manager.

(** * Data URLs of reference images (utils/image_utils.py) *)

(** The runner passes a reference image given as text through
    [decode_base64_to_bytes] and [extract_mime_type]. *)

Module PyStr.

(** [s.split(sep, 1)] for a one-character separator: the text before the
    first separator, and the text after it when there is one. *)
Fixpoint split_once (sep : ascii) (s : string) : string * option string :=
  match s with
  | EmptyString => ("", None)
  | String c rest =>
      if Ascii.eqb c sep then ("", Some rest)
      else let (before, after) := split_once sep rest in
           (String c before, after)
  end.

(** [s.replace(old, new)] for a non-empty [old]: the occurrences of [old]
    are replaced from the left, without overlap. [skip] counts the
    characters of a replaced occurrence still to pass. *)
Fixpoint replace_from (old new : string) (skip : nat) (s : string) : string :=
  match s with
  | EmptyString => ""
  | String c rest =>
      match skip with
      | S k => replace_from old new k rest
      | O =>
          if String.prefix old s
          then new ++ replace_from old new (String.length old - 1) rest
          else String c (replace_from old new 0 rest)
      end
  end.

Definition replace (old new s : string) : string := replace_from old new 0 s.

End PyStr.

(** How a decoding ends: with the bytes, with the [ValueError] of unpacking
    a split that has one part, or with the error of [base64.b64decode]. *)
Inductive Decoded :=
| Bytes (data : list Byte.byte)
| UnpackError
| Base64Error (detail : string).

Fixpoint bytes_eqb (a b : list Byte.byte) : bool :=
  match a, b with
  | [], [] => true
  | x :: a', y :: b' => Byte.eqb x y && bytes_eqb a' b'
  | _, _ => false
  end.

Section ImageUtils.

(** The library call [base64.b64decode]. *)
Variable b64decode : string -> Validated (list Byte.byte).

Definition b64decode_outcome (s : string) : Decoded :=
  match b64decode s with
  | Valid data => Bytes data
  | Invalid detail => Base64Error detail
  end.

(** [decode_base64_to_bytes]. *)
Definition decode_base64_to_bytes (base64_str : string) : Decoded :=
  if String.prefix "data:" base64_str then
    match PyStr.split_once "," base64_str with
    | (_, Some data) => b64decode_outcome data
    | (_, None) => UnpackError
    end
  else b64decode_outcome base64_str.

(** [extract_mime_type]. *)
Definition extract_mime_type (base64_str default : string) : string :=
  if String.prefix "data:" base64_str then
    let prefix := fst (PyStr.split_once "," base64_str) in
    if Py.str_in ";" prefix then
      let mime_part := fst (PyStr.split_once ";" prefix) in
      PyStr.replace "data:" "" mime_part
    else default
  else default.

(** [create_data_url]. *)
Definition create_data_url (base64_str mime_type : string) : string :=
  if String.prefix "data:" base64_str then base64_str
  else "data:" ++ mime_type ++ ";base64," ++ base64_str.

(** [validate_image_data]. *)
Definition validate_image_data (base64_str : string) : bool :=
  match decode_base64_to_bytes base64_str with
  | Bytes data =>
      if (length data <? 8)%nat then false
      else if bytes_eqb (firstn 8 data)
                [Byte.x89; Byte.x50; Byte.x4e; Byte.x47;
                 Byte.x0d; Byte.x0a; Byte.x1a; Byte.x0a] then true
      else if bytes_eqb (firstn 2 data) [Byte.xff; Byte.xd8] then true
      else if bytes_eqb (firstn 6 data) (String.list_byte_of_string "GIF87a")
              || bytes_eqb (firstn 6 data)
                   (String.list_byte_of_string "GIF89a") then true
      else if bytes_eqb (firstn 4 data) (String.list_byte_of_string "RIFF")
              && bytes_eqb (firstn 4 (skipn 8 data))
                   (String.list_byte_of_string "WEBP") then true
      else false
  | UnpackError | Base64Error _ => false
  end.

End ImageUtils.

(** ** Properties of the data URL functions *)

Lemma append_assoc (a b c : string) : (a ++ b) ++ c = a ++ (b ++ c).
Proof.
  induction a as [|x a IH]; [reflexivity|].
  change ((String x a ++ b) ++ c) with (String x ((a ++ b) ++ c)).
  change (String x a ++ (b ++ c)) with (String x (a ++ (b ++ c))).
  by rewrite IH.
Qed.

Lemma char_in_cons c x s :
  Py.str_in (String c "") (String x s)
  = Ascii.eqb x c || Py.str_in (String c "") s.
Proof.
  cbn [Py.str_in String.prefix].
  destruct (ascii_dec c x) as [->|Hne].
  - rewrite Ascii.eqb_refl. by destruct s.
  - destruct (Ascii.eqb_spec x c) as [->|_]; [done|reflexivity].
Qed.

Lemma char_in_app c a b :
  Py.str_in (String c "") (a ++ b)
  = Py.str_in (String c "") a || Py.str_in (String c "") b.
Proof.
  induction a as [|x a IH].
  - reflexivity.
  - change (String x a ++ b) with (String x (a ++ b)).
    rewrite !char_in_cons, IH. by rewrite orb_assoc.
Qed.

Lemma split_once_found sep a b :
  Py.str_in (String sep "") a = false ->
  PyStr.split_once sep (a ++ String sep b) = (a, Some b).
Proof.
  induction a as [|x a IH]; intros H.
  - change ("" ++ String sep b) with (String sep b).
    cbn [PyStr.split_once]. by rewrite Ascii.eqb_refl.
  - rewrite char_in_cons in H. apply orb_false_iff in H as [Hx Ha].
    change (String x a ++ String sep b) with (String x (a ++ String sep b)).
    cbn [PyStr.split_once]. rewrite Hx, (IH Ha). reflexivity.
Qed.

Lemma split_once_absent sep s :
  Py.str_in (String sep "") s = false ->
  PyStr.split_once sep s = (s, None).
Proof.
  induction s as [|x s IH]; intros H; [reflexivity|].
  rewrite char_in_cons in H. apply orb_false_iff in H as [Hx Hs].
  cbn [PyStr.split_once]. rewrite Hx, (IH Hs). reflexivity.
Qed.

Lemma replace_absent old new s :
  Py.str_in old s = false -> PyStr.replace old new s = s.
Proof.
  unfold PyStr.replace. induction s as [|x s IH]; intros H; [reflexivity|].
  cbn [Py.str_in] in H. cbn [PyStr.replace_from].
  destruct (String.prefix old (String x s)); [discriminate|].
  by rewrite (IH H).
Qed.

Lemma replace_scheme mime :
  PyStr.replace "data:" "" ("data:" ++ mime) = PyStr.replace "data:" "" mime.
Proof.
  unfold PyStr.replace. pose proof (prefix_app "data:" mime) as Hp.
  change ("data:" ++ mime)
    with (String "d" (String "a" (String "t" (String "a" (String ":" mime)))))
    in *.
  cbn [PyStr.replace_from]. rewrite Hp.
  change (String.length "data:" - 1)%nat with 4%nat.
  cbn [PyStr.replace_from]. reflexivity.
Qed.

(** X20. A data URL built by [create_data_url] decodes to what it was
    built from. For a base64 text that is not itself a data URL and a MIME
    type without a comma, [decode_base64_to_bytes] gives on the URL what it
    gives on the text (the bytes, or the same base64 error), so
    [validate_image_data] agrees on both; when the MIME type has no
    semicolon either and does not contain the scheme prefix,
    [extract_mime_type] gives back the MIME type. Building a data URL from
    a data URL changes nothing. *)
Theorem data_url_round_trip
    (b64decode : string -> Validated (list Byte.byte))
    (base64_str mime_type other default : string) :
  String.prefix "data:" base64_str = false ->
  Py.str_in "," mime_type = false ->
  let url := create_data_url base64_str mime_type in
  decode_base64_to_bytes b64decode url = b64decode_outcome b64decode base64_str
  /\ decode_base64_to_bytes b64decode url
     = decode_base64_to_bytes b64decode base64_str
  /\ validate_image_data b64decode url
     = validate_image_data b64decode base64_str
  /\ create_data_url url other = url
  /\ (Py.str_in ";" mime_type = false ->
      Py.str_in "data:" mime_type = false ->
      extract_mime_type url default = mime_type).
Proof.
  intros Hb Hm url.
  assert (Hurl : url = ("data:" ++ mime_type ++ ";base64") ++ String "," base64_str).
  { unfold url, create_data_url. rewrite Hb.
    change (";base64," ++ base64_str)
      with (";base64" ++ String "," base64_str).
    by rewrite !append_assoc. }
  assert (Hp : String.prefix "data:" url = true).
  { unfold url, create_data_url. rewrite Hb. apply prefix_app. }
  assert (Hsplit : PyStr.split_once "," url
                   = ("data:" ++ mime_type ++ ";base64", Some base64_str)).
  { rewrite Hurl. apply split_once_found.
    rewrite !char_in_app, Hm. reflexivity. }
  assert (Hd : decode_base64_to_bytes b64decode url
               = b64decode_outcome b64decode base64_str).
  { unfold decode_base64_to_bytes. by rewrite Hp, Hsplit. }
  assert (Hd' : decode_base64_to_bytes b64decode base64_str
                = b64decode_outcome b64decode base64_str).
  { unfold decode_base64_to_bytes. by rewrite Hb. }
  split; [exact Hd|]. split; [by rewrite Hd, Hd'|].
  split; [unfold validate_image_data; by rewrite Hd, Hd'|].
  split; [unfold create_data_url at 1; by rewrite Hp|].
  intros Hsemi Hscheme. unfold extract_mime_type.
  rewrite Hp, Hsplit. cbn [fst].
  replace (Py.str_in ";" ("data:" ++ mime_type ++ ";base64")) with true
    by (rewrite !char_in_app; cbn; by rewrite orb_true_r).
  change ("data:" ++ mime_type ++ ";base64")
    with ("data:" ++ (mime_type ++ String ";" "base64")).
  rewrite <- append_assoc.
  rewrite split_once_found by (by rewrite char_in_app, Hsemi).
  cbn [fst]. rewrite replace_scheme. by apply replace_absent.
Qed.

(** A decoder for the sample text: two bytes for it, an error for any
    other. *)
Definition sample_b64decode : string -> Validated (list Byte.byte) :=
  fun s => if String.eqb s "/9g=" then Valid [Byte.xff; Byte.xd8]
           else Invalid "Incorrect padding".

(** X20 at the text /9g= and the MIME type image/jpeg. *)
Lemma data_url_round_trip_witness :
  String.prefix "data:" "/9g=" = false
  /\ Py.str_in "," "image/jpeg" = false
  /\ create_data_url "/9g=" "image/jpeg" = "data:image/jpeg;base64,/9g="
  /\ decode_base64_to_bytes sample_b64decode "data:image/jpeg;base64,/9g="
     = Bytes [Byte.xff; Byte.xd8]
  /\ extract_mime_type "data:image/jpeg;base64,/9g=" "image/png"
     = "image/jpeg".
Proof.
  split; [reflexivity|]. split; [reflexivity|]. split; [reflexivity|].
  destruct (data_url_round_trip sample_b64decode "/9g=" "image/jpeg" ""
              "image/png" eq_refl eq_refl) as (Hd & _ & _ & _ & Hm).
  split; [exact Hd|]. exact (Hm eq_refl eq_refl).
Defined.

(** X21. A text that starts as a data URL and holds no comma cannot be
    decoded: [decode_base64_to_bytes] ends with the unpacking error of its
    split, before [base64.b64decode] is called, whatever that call would
    have returned; [validate_image_data] answers false, [create_data_url]
    returns the text as it is, and [extract_mime_type] still reads a MIME
    type off it when it holds a semicolon. *)
Theorem data_url_without_comma_is_not_decoded
    (b64decode : string -> Validated (list Byte.byte))
    (base64_str mime_type default : string) :
  String.prefix "data:" base64_str = true ->
  Py.str_in "," base64_str = false ->
  decode_base64_to_bytes b64decode base64_str = UnpackError
  /\ validate_image_data b64decode base64_str = false
  /\ create_data_url base64_str mime_type = base64_str
  /\ extract_mime_type base64_str default
     = if Py.str_in ";" base64_str
       then PyStr.replace "data:" ""
              (fst (PyStr.split_once ";" base64_str))
       else default.
Proof.
  intros Hp Hc.
  assert (Hd : decode_base64_to_bytes b64decode base64_str = UnpackError).
  { unfold decode_base64_to_bytes.
    by rewrite Hp, (split_once_absent _ _ Hc). }
  split; [exact Hd|].
  split; [unfold validate_image_data; by rewrite Hd|].
  split; [unfold create_data_url; by rewrite Hp|].
  unfold extract_mime_type. by rewrite Hp, (split_once_absent _ _ Hc).
Qed.

(** X21 at a data URL cut before its comma. *)
Lemma data_url_without_comma_is_not_decoded_witness :
  String.prefix "data:" "data:image/png;base64" = true
  /\ Py.str_in "," "data:image/png;base64" = false
  /\ decode_base64_to_bytes sample_b64decode "data:image/png;base64"
     = UnpackError
  /\ extract_mime_type "data:image/png;base64" "image/jpeg" = "image/png".
Proof.
  split; [reflexivity|]. split; [reflexivity|].
  destruct (data_url_without_comma_is_not_decoded sample_b64decode
              "data:image/png;base64" "image/png" "image/jpeg"
              eq_refl eq_refl) as (Hd & _ & _ & Hm).
  split; [exact Hd|]. rewrite Hm. reflexivity.
Defined.

(** * The image handling of [ShaderGenRunner.run] (graphs/shader_gen/graph.py) *)

(** The [reference_image] argument of [run]: bytes or text. *)
Inductive ImageInput :=
| ImageBytes (data : list Byte.byte)
| ImageText (text : string).

(** The bytes of the task record's [reference_image], as the string the
    workflow's view of the record holds. *)
Definition stored_image (image_bytes : option (list Byte.byte))
  : option string :=
  option_map String.string_of_list_byte image_bytes.

Section RunImage.

Variable b64decode : string -> Validated (list Byte.byte).

(** The image handling at the top of [run]: the value of [image_bytes], or
    the way [decode_base64_to_bytes] raised; [run] catches nothing, so in
    the second case no task is created. An argument that is empty (or none)
    is skipped; bytes are stored as they are; a text is decoded. *)
Definition image_handling (reference_image : option ImageInput)
  : Decoded + option (list Byte.byte) :=
  match reference_image with
  | None | Some (ImageBytes []) | Some (ImageText "") => inr None
  | Some (ImageBytes data) => inr (Some data)
  | Some (ImageText text) =>
      match decode_base64_to_bytes b64decode text with
      | Bytes data => inr (Some data)
      | raised => inl raised
      end
  end.

(** The first configuration of [run], when the image handling returns. *)
Definition run_initial_config (requirement : string) (max_retries : Z)
    (reference_image : option ImageInput) : Decoded + Config :=
  match image_handling reference_image with
  | inl raised => inl raised
  | inr image_bytes =>
      inr (initial_config requirement max_retries (stored_image image_bytes))
  end.

End RunImage.

(** ** The entry branch follows the decoded image *)

(** Without a stored image no invocation stands at [analyze_image] and no
    image analysis is recorded. *)
Definition no_image_inv (c : Config) : Prop :=
  (forall r, loc c <> Invoke r N_analyze_image)
  /\ truthy (reference_image (st c)) = false
  /\ image_analysis (st c) = None.

(** With a stored image every invocation starts at [analyze_image], so an
    analysis is on record as soon as one node has run. *)
Definition image_inv (c : Config) : Prop :=
  truthy (reference_image (st c)) = true
  /\ (image_analysis (st c) = None ->
      loc c = Invoke false N_analyze_image /\ llm_calls c = 0%nat).

Section Entry.

Variable generate : nat -> string.
Variable on_tool_call : option (nat -> string -> Task.CompileResult).

Lemma no_image_inv_step c l c' :
  no_image_inv c -> step generate on_tool_call c = Some (l, c') ->
  no_image_inv c'.
Proof.
  destruct c as [l0 s k t]. intros (Hloc & Himg & Han) Hstep.
  cbn [loc st llm_calls tool_calls] in *.
  destruct l0 as [r n| |e]; [|discriminate|discriminate].
  destruct r, n; unfold_nodes Hstep.
  all: try (by destruct (Hloc true)); try (by destruct (Hloc false)).
  all: split_step Hstep.
  all: inversion Hstep; subst; clear Hstep.
  all: unfold no_image_inv, check_has_image;
    cbn -[deficiencies extract_shader_code Z.add].
  all: rewrite ?Himg.
  all: repeat split; try assumption; try discriminate.
Qed.

Lemma image_inv_step c l c' :
  image_inv c -> step generate on_tool_call c = Some (l, c') -> image_inv c'.
Proof.
  destruct c as [l0 s k t]. intros (Himg & Han) Hstep.
  cbn [loc st llm_calls tool_calls] in *.
  destruct l0 as [r n| |e]; [|discriminate|discriminate].
  assert (Hsome : (r, n) <> (false, N_analyze_image) -> image_analysis s <> None).
  { intros Hne Hnone. destruct (Han Hnone) as [[= -> ->] _]. by apply Hne. }
  clear Han.
  destruct r, n; unfold_nodes Hstep.
  all: try rewrite Himg in Hstep;
    cbn -[deficiencies extract_shader_code Z.add] in Hstep.
  all: split_step Hstep.
  all: inversion Hstep; subst; clear Hstep.
  all: try (specialize (Hsome ltac:(discriminate))).
  all: unfold image_inv, check_has_image;
    cbn -[deficiencies extract_shader_code Z.add].
  all: (split; [assumption|]); intros Hn; try discriminate;
    try (by destruct Hsome).
Qed.

Lemma entry_inv_reachable requirement max image c :
  Reachable generate on_tool_call (initial_config requirement max image) c ->
  if truthy image then image_inv c else no_image_inv c.
Proof.
  intros Hreach. induction Hreach as [|c l c' _ IH Hstep].
  - unfold image_inv, no_image_inv, initial_config, initial_state,
      check_has_image. cbn.
    destruct (truthy image) eqn:Himg; rewrite ?Himg; cbn; rewrite ?Himg.
    + by repeat split.
    + by repeat split.
  - destruct (truthy image).
    + by eapply image_inv_step.
    + by eapply no_image_inv_step.
Qed.

End Entry.

Lemma truthy_stored_image image_bytes :
  truthy (stored_image image_bytes)
  = match image_bytes with Some (_ :: _) => true | _ => false end.
Proof. by destruct image_bytes as [[|x data]|]. Qed.

(** X3. The entry branch follows the image that [run] stores, not the one it
    is given. When the image handling returns, every configuration of the
    run, under any step limit, satisfies: if the stored bytes are not empty,
    an image analysis is on record in every configuration but the very first,
    where the invocation stands at [analyze_image]; if nothing or an empty
    byte string is stored, no invocation ever stands at [analyze_image] and no
    image analysis is ever recorded. Bytes are stored as given; a text is
    stored as what [decode_base64_to_bytes] makes of it; so a text that is
    not empty and decodes to no bytes is stored as an empty byte string, and
    its task runs without image analysis. When the decoding raises, there is
    no first configuration. *)
Theorem entry_branch_follows_the_decoded_image
    (b64decode : string -> Validated (list Byte.byte))
    (generate : nat -> string)
    (on_tool_call : option (nat -> string -> Task.CompileResult))
    (recursion_limit : nat)
    (requirement : string) (max : Z) (reference_image : option ImageInput) :
  match image_handling b64decode reference_image with
  | inl raised =>
      run_initial_config b64decode requirement max reference_image
      = inl raised
      /\ exists text,
           reference_image = Some (ImageText text) /\ text <> ""
           /\ decode_base64_to_bytes b64decode text = raised
           /\ forall data, raised <> Bytes data
  | inr image_bytes =>
      run_initial_config b64decode requirement max reference_image
      = inr (initial_config requirement max (stored_image image_bytes))
      /\ match reference_image with
         | None | Some (ImageBytes []) | Some (ImageText "") =>
             image_bytes = None
         | Some (ImageBytes data) => image_bytes = Some data
         | Some (ImageText text) =>
             decode_base64_to_bytes b64decode text
             = Bytes (default [] image_bytes)
             /\ image_bytes <> None
         end
      /\ forall b,
           Run generate on_tool_call recursion_limit
             (initial_run requirement max (stored_image image_bytes)) b ->
           match image_bytes with
           | Some (_ :: _) => image_inv (config b)
           | _ => no_image_inv (config b)
           end
  end.
Proof.
  unfold run_initial_config.
  destruct (image_handling b64decode reference_image) as [raised|image_bytes]
    eqn:Hh.
  - split; [reflexivity|].
    destruct reference_image as [[[|x data]|[|ch text]]|]; try discriminate.
    cbn in Hh. exists (String ch text). split; [reflexivity|].
    split; [discriminate|].
    destruct (decode_base64_to_bytes b64decode (String ch text));
      try discriminate; injection Hh as <-; by split.
  - split; [reflexivity|]. split.
    + destruct reference_image as [[[|x data]|[|ch text]]|]; cbn in Hh;
        try (by injection Hh as <-).
      destruct (decode_base64_to_bytes b64decode (String ch text));
        try discriminate. injection Hh as <-. by split.
    + intros b Hrun.
      pose proof (entry_inv_reachable generate on_tool_call requirement max
                    (stored_image image_bytes) (config b)
                    (run_reachable _ _ recursion_limit _ _ Hrun)) as Hinv.
      rewrite truthy_stored_image in Hinv.
      by destruct image_bytes as [[|x data]|].
Qed.

(** [base64.b64decode] discards the characters outside its alphabet: the
    text !!!! decodes to no bytes. A decoder for that text and the sample
    text. *)
Definition lenient_b64decode : string -> Validated (list Byte.byte) :=
  fun s => if String.eqb s "!!!!" then Valid [] else sample_b64decode s.

(** X3 at the text !!!!: the task is created without an image, and after
    four steps of its run no image analysis is on record. *)
Lemma entry_branch_follows_the_decoded_image_witness :
  image_handling lenient_b64decode (Some (ImageText "!!!!")) = inr (Some [])
  /\ no_image_inv
       (config
          (bounded_steps steady_generator failing_host 25 4
             (initial_run "plain unlit" 3 (Some "")))).
Proof.
  split; [reflexivity|].
  pose proof (entry_branch_follows_the_decoded_image lenient_b64decode
                steady_generator failing_host 25 "plain unlit" 3
                (Some (ImageText "!!!!"))) as H.
  cbn in H. destruct H as (_ & _ & H).
  apply (H (bounded_steps steady_generator failing_host 25 4
              (initial_run "plain unlit" 3 (Some "")))).
  apply bounded_steps_run.
Defined.

